(** * sosia: resilient batch queries and cache set-up

    A shallow embedding of
      - [sosia/utils/queries.py]          ([query], [stacked_query]),
      - [sosia/establishing/database.py]  ([create_cache]),
    together with the key partitioner exercised by
    [sosia/cache/tests/test_search.py].

    Python objects are modelled as follows.
      - [str]            : [string] (sequences of 8-bit characters);
      - [int]            : [Z];
      - [None] or a list : [option (list _)];
      - exceptions       : the [Raise] case of the [outcome] type;
      - the list [res] that [stacked_query] extends in place: a cell of a
        heap of lists, addressed by a location, so that aliasing between
        the caller's list and the value handed back is visible;
      - the remote Scopus service: a transition function on an abstract
        world state, so that the same query may answer differently when it
        is sent again;
      - the sqlite file: a finite map from table names to tables. *)

From Stdlib Require Import ZArith Ascii String List Lia Bool.
From stdpp Require Import base option list gmap strings pretty sorting.

Open Scope string_scope.
Open Scope Z_scope.

(** ** Exceptions and outcomes *)

(** The exception classes that the two modules raise or catch.
    [UnicodeDecodeError] is a subclass of [ValueError] in Python; the
    [except] clause of [query] names both. *)
Inductive exn : Type :=
  | KeyError (key : string)
  | ValueError
  | UnicodeDecodeError
  | TypeError
  | AttributeError
  | Scopus400Error
  | ScopusQueryError
  | Scopus500Error
  | Scopus404Error
  | Exception (msg : string).

(** [except (KeyError, UnicodeDecodeError, ValueError)] of [query]. *)
Definition decode_class (e : exn) : bool :=
  match e with
  | KeyError _ | UnicodeDecodeError | ValueError => true
  | _ => false
  end.

(** [except (Scopus400Error, ScopusQueryError, Scopus500Error)] of
    [stacked_query]. *)
Definition split_class (e : exn) : bool :=
  match e with
  | Scopus400Error | ScopusQueryError | Scopus500Error => true
  | _ => false
  end.

(** The outcome of running a piece of Python: a value is returned, or an
    exception leaves the function. *)
Inductive outcome (A : Type) : Type :=
  | Ret (a : A)
  | Raise (e : exn).
Arguments Ret {A} a.
Arguments Raise {A} e.

Definition returns {A} (r : outcome A) : bool :=
  match r with Ret _ => true | Raise _ => false end.

(** ** Strings *)

Module Str.

(** [needle in hay] on Python strings. *)
Fixpoint contains (needle hay : string) : bool :=
  String.prefix needle hay ||
  match hay with
  | EmptyString => false
  | String _ hay' => contains needle hay'
  end.

(** [sep.join(parts)]. *)
Definition join (sep : string) (parts : list string) : string :=
  String.concat sep parts.

(** [s[:n]]. *)
Fixpoint take (n : nat) (s : string) : string :=
  match n, s with
  | S n', String c s' => String c (take n' s')
  | _, _ => EmptyString
  end.

Definition is_digit (c : ascii) : bool :=
  let n := nat_of_ascii c in (48 <=? n)%nat && (n <=? 57)%nat.

Definition is_alpha (c : ascii) : bool :=
  let n := nat_of_ascii c in
  ((65 <=? n)%nat && (n <=? 90)%nat) || ((97 <=? n)%nat && (n <=? 122)%nat).

(** The whitespace that [int] skips around a literal: tab, line feed,
    vertical tab, form feed, carriage return and space. The separators
    [0x1c .. 0x1f], which [str.strip] drops, are not among them. *)
Definition is_space (c : ascii) : bool :=
  let n := nat_of_ascii c in
  ((9 <=? n)%nat && (n <=? 13)%nat) || (n =? 32)%nat.

End Str.

(** ** [string.Template] *)

Module Template.

(** [Template(s)] only stores [s]; the placeholders are found when
    [substitute] runs. *)
Record t : Type := Template { template : string }.

(** First and later characters of a placeholder name,
    [[_a-z][_a-z0-9]*] under [re.IGNORECASE]. *)
Definition id_start (c : ascii) : bool :=
  Str.is_alpha c || Ascii.eqb c "_".
Definition id_char (c : ascii) : bool :=
  id_start c || Str.is_digit c.

(** Where the scanner stands with respect to the last ["$"]. *)
Inductive mode : Type :=
  | Text
  | Dollar
  | Named (name : string)
  | BraceOpen
  | Braced (name : string).

(** [str(mapping[name])] for the keyword call [substitute(fill=...)]:
    the mapping has the single key ["fill"]. *)
Definition lookup (fill name : string) : outcome string :=
  if String.eqb name "fill" then Ret fill else Raise (KeyError name).

Definition emit (out : string) (rest : outcome string) : outcome string :=
  match rest with
  | Ret s => Ret (out ++ s)
  | Raise e => Raise e
  end.

(** The scan of [pattern.sub(convert, template)], left to right:
    ["$$"] gives ["$"]; ["$name"] and ["${name}"] are looked up (the
    name is the longest run of name characters); any other ["$"] is
    the [invalid] group and raises [ValueError]. The leftmost offending
    placeholder decides the exception. *)
Fixpoint scan (fill : string) (m : mode) (s : string) : outcome string :=
  match s with
  | EmptyString =>
      match m with
      | Text => Ret EmptyString
      | Named name => lookup fill name
      | Dollar | BraceOpen | Braced _ => Raise ValueError
      end
  | String c s' =>
      match m with
      | Text =>
          if Ascii.eqb c "$" then scan fill Dollar s'
          else emit (String c EmptyString) (scan fill Text s')
      | Dollar =>
          if Ascii.eqb c "$" then emit "$" (scan fill Text s')
          else if id_start c then scan fill (Named (String c EmptyString)) s'
          else if Ascii.eqb c "{" then scan fill BraceOpen s'
          else Raise ValueError
      | Named name =>
          if id_char c then scan fill (Named (name ++ String c EmptyString)) s'
          else
            match lookup fill name with
            | Ret v =>
                if Ascii.eqb c "$" then emit v (scan fill Dollar s')
                else emit (v ++ String c EmptyString) (scan fill Text s')
            | Raise e => Raise e
            end
      | BraceOpen =>
          if id_start c then scan fill (Braced (String c EmptyString)) s'
          else Raise ValueError
      | Braced name =>
          if id_char c then scan fill (Braced (name ++ String c EmptyString)) s'
          else if Ascii.eqb c "}" then
            match lookup fill name with
            | Ret v => emit v (scan fill Text s')
            | Raise e => Raise e
            end
          else Raise ValueError
      end
  end.

(** [tpl.substitute(fill=fill)]. *)
Definition substitute (tpl : t) (fill : string) : outcome string :=
  scan fill Text (template tpl).

End Template.

(** ** [int] applied to a string *)

Module PyInt.

Fixpoint lstrip (s : string) : string :=
  match s with
  | String c s' => if Str.is_space c then lstrip s' else s
  | EmptyString => EmptyString
  end.

Definition strip (s : string) : string :=
  String.rev (lstrip (String.rev (lstrip s))).

Definition digit_value (c : ascii) : Z :=
  Z.of_nat (nat_of_ascii c) - 48.

(** Decimal digits, with single underscores allowed between two digits.
    [need] says that a digit must come next. *)
Fixpoint digits (need : bool) (acc : Z) (s : string) : option Z :=
  match s with
  | EmptyString => if need then None else Some acc
  | String c s' =>
      if Str.is_digit c then digits false (10 * acc + digit_value c) s'
      else if Ascii.eqb c "_" then
        if need then None else digits true acc s'
      else None
  end.

Definition signed (s : string) : option Z :=
  match s with
  | String "+" r => digits true 0 r
  | String "-" r => Z.opp <$> digits true 0 r
  | _ => digits true 0 s
  end.

(** [int(s)] for a [str] argument: surrounding whitespace is dropped,
    one sign is allowed, and anything that is not a decimal literal
    raises [ValueError]. Only ASCII digits and ASCII whitespace are
    modelled. *)
Definition int (s : string) : outcome Z :=
  match signed (strip s) with
  | Some z => Ret z
  | None => Raise ValueError
  end.

End PyInt.

(** ** The scopus package and [query] *)

(** The named tuples of [AuthorSearch(...).authors] and
    [ScopusSearch(...).results], reduced to the fields this code reads. *)
Record author : Type := Author { au_eid : string; surname : string }.
Record document : Type :=
  Document { doc_eid : string; coverDate : string; author_ids : string }.

Inductive entry : Type :=
  | AuthorEntry (a : author)
  | DocEntry (d : document).

(** [for pub in res: int(pub.coverDate[:4])]: the first date whose first
    four characters are not an integer raises. *)
Fixpoint check_years (res : list document) : outcome unit :=
  match res with
  | [] => Ret tt
  | pub :: res' =>
      match PyInt.int (Str.take 4 (coverDate pub)) with
      | Ret _ => check_years res'
      | Raise e => Raise e
      end
  end.

Section Query.

(** The state of everything outside the program (the Scopus service and
    the files the scopus package caches). *)
Context {W : Type}.

(** [AuthorSearch(q, refresh=refresh).authors] and
    [ScopusSearch(q, refresh=refresh).results]: each may raise, may
    give [None], or gives a list; each may change the outside world. *)
Variable AuthorSearch :
  string -> bool -> W -> outcome (option (list author)) * W.
Variable ScopusSearch :
  string -> bool -> W -> outcome (option (list document)) * W.

(** The body of the [try] block of [query]. *)
Definition query_try (q_type q : string) (refresh : bool) (w : W)
  : outcome (option (list entry)) * W :=
  if String.eqb q_type "author" then
    match AuthorSearch q refresh w with
    | (Ret res, w') => (Ret (option_map (map AuthorEntry) res), w')
    | (Raise e, w') => (Raise e, w')
    end
  else if String.eqb q_type "docs" then
    match ScopusSearch q refresh w with
    | (Ret (Some res), w') =>
        match check_years res with
        | Ret _ => (Ret (Some (map DocEntry res)), w')
        | Raise e => (Raise e, w')
        end
    | (Ret None, w') => (Raise TypeError, w')  (* iterating over None *)
    | (Raise e, w') => (Raise e, w')
    end
  else (Raise (Exception "Unknown value provided."), w).

(** One activation of [query]; [self] stands for the recursive call
    [query(q_type, q, True, False)] in the handler. Falling off the end
    of the handler ([pass]) returns [None]. *)
Definition query_step
    (self : string -> string -> bool -> bool -> W ->
            outcome (option (list entry)) * W)
    (q_type q : string) (refresh first_try : bool) (w : W)
  : outcome (option (list entry)) * W :=
  match query_try q_type q refresh w with
  | (Ret res, w') => (Ret res, w')
  | (Raise e, w') =>
      if decode_class e then
        if first_try then self q_type q true false w'
        else (Ret None, w')
      else (Raise e, w')
  end.

(** [query]. The recursive call passes [first_try=False], and an
    activation with [first_try=False] makes no call, so two activations
    are all there can be; [query_unfold] below gives back the recursive
    equation of the source. *)
Definition query : string -> string -> bool -> bool -> W ->
                   outcome (option (list entry)) * W :=
  query_step (query_step (fun _ _ _ _ w => (Ret None, w))).

End Query.

(** ** [stacked_query] *)

(** Identifiers come as [str] or [int]; [str(g)] makes them strings. *)
Inductive ident : Type :=
  | IdStr (s : string)
  | IdInt (n : Z).

Definition str (g : ident) : string :=
  match g with
  | IdStr s => s
  | IdInt n => pretty n
  end.

(** Lists live in a heap; a variable holds [None] or the address of a
    list, so two variables may name the same list. *)
Definition loc := nat.

Inductive value : Type :=
  | VNone
  | VList (l : loc).

(** What a run of [stacked_query] can touch: the outside world of the
    search function, the heap of result lists, and the terminal, kept as
    the arguments of each [print_progress] call, oldest first. [calls]
    counts the invocations of the search function; the program does not
    read it. *)
Record world (W R : Type) : Type := World {
  service : W;
  heap : gmap loc (list R);
  progress : list (Z * option Z);
  calls : nat
}.
Arguments World {W R} _ _ _ _.
Arguments service {W R} _.
Arguments heap {W R} _.
Arguments progress {W R} _.
Arguments calls {W R} _.

(** [total] as a condition: [None] and [0] are false. *)
Definition truthy (total : option Z) : bool :=
  match total with
  | Some t => negb (t =? 0)
  | None => false
  end.

(** The marker looked for in the built query, and the clause appended to
    it. *)
Definition marker : string := "AND EID(".
Definition scoping_clause : string := " AND EID($fill)".

(** [["*" + str(n) for n in range(0, 10)]]. *)
Definition groupeids : list string :=
  (fun n : nat => "*" ++ pretty n) <$> seq 0 10.

(** A template is scoped when every query built from it carries the
    marker. *)
Definition scoped (tpl : Template.t) : Prop :=
  forall fill q : string,
    Template.substitute tpl fill = Ret q -> Str.contains marker q = true.

Section StackedQuery.

Context {W R : Type}.

(** The search function handed in as [func], already closed over its
    first arguments with [partial]: it takes the query and the refresh
    flag. It returns a list or [None], or raises. *)
Definition adapter : Type :=
  string -> bool -> W -> outcome (option (list R)) * W.

(** Modelled from the spec: [run] of [sosia.utils] is not among the
    sources; it calls the function it is given on the remaining
    arguments ("call the External Query Adapter with this query"). *)
Definition run (func : adapter) (q : string) (refresh : bool)
  : W -> outcome (option (list R)) * W :=
  func q refresh.

(** [run(func, q, refresh)] inside a [world]. *)
Definition call (func : adapter) (q : string) (refresh : bool)
    (w : world W R) : outcome (option (list R)) * world W R :=
  let '(r, sv) := run func q refresh (service w) in
  (r, World sv (heap w) (progress w) (S (calls w))).

(** [res.extend(rows)] for [res] the list at [l]. A location that was
    never allocated reads as the empty list. *)
Definition extend (l : loc) (rows : list R) (w : world W R) : world W R :=
  World (service w)
        (<[l := (default [] (heap w !! l) ++ rows)%list]> (heap w))
        (progress w) (calls w).

(** Modelled from the spec: [print_progress] of [sosia.utils] is not
    among the sources; it is "a progress-printing function taking
    (done, total)", a pure side effect on the terminal. *)
Definition print_progress (i : Z) (total : option Z) (w : world W R)
  : world W R :=
  World (service w) (heap w) (progress w ++ [(i, total)])%list (calls w).

(** Sequencing of two calls: an exception or an exhausted recursion
    budget in the first ends the whole. *)
Definition bind {A B : Type} (m : option (outcome A * world W R))
    (k : A -> world W R -> option (outcome B * world W R))
  : option (outcome B * world W R) :=
  match m with
  | Some (Ret a, w) => k a w
  | Some (Raise e, w) => Some (Raise e, w)
  | None => None
  end.

(** The signature of [stacked_query] (the defaults [i=0] and [total=None]
    are written by the caller). [None] as a result means that the bound
    on the depth of the recursion was reached. *)
Definition stacked_query_type : Type :=
  list ident -> value -> Template.t -> string -> adapter -> bool -> Z ->
  option Z -> world W R -> option (outcome (value * Z) * world W R).

(** The body of [stacked_query]; [self] stands for the function itself
    in the four recursive calls. The keyword dictionary [params] is
    written out: its ["res"] entry is set once, from the parameter [res],
    and only ["group"] and ["i"] are updated before the second call,
    while the variable [res] is rebound to what each call returns. *)
Definition stacked_query_step (self : stacked_query_type)
    (group : list ident) (res : value) (query : Template.t)
    (joiner : string) (func : adapter) (refresh : bool) (i : Z)
    (total : option Z) (w : world W R)
  : option (outcome (value * Z) * world W R) :=
  let group := str <$> group in
  match Template.substitute query (Str.join joiner group) with
  | Raise e => Some (Raise e, w)
  | Ret q =>
    match res with
    | VNone => Some (Raise AttributeError, w)   (* None.extend *)
    | VList l =>
      match call func q refresh w with
      | (Ret (Some rows), w1) =>
          let w2 := extend l rows w1 in
          if truthy total then
            let i := i + Z.of_nat (length group) in
            Some (Ret (res, i), print_progress i total w2)
          else Some (Ret (res, i), w2)
      | (Ret None, w1) => Some (Raise TypeError, w1)  (* extend(None) *)
      | (Raise e, w1) =>
          if split_class e then
            if (1 <? length group)%nat then
              let mid := (length group / 2)%nat in
              bind (self (IdStr <$> take mid group)
                      res query joiner func refresh i total w1)
                (fun '(_, i) w2 =>
              bind (self (IdStr <$> drop mid group)
                      res query joiner func refresh i total w2)
                (fun '(res, i) w3 => Some (Ret (res, i), w3)))
            else if negb (Str.contains marker q) then
              let q := Template.Template (q ++ scoping_clause) in
              let mid := (length groupeids / 2)%nat in
              bind (self (IdStr <$> take mid groupeids)
                      res q " OR " func refresh i None w1)
                (fun '(_, i) w2 =>
              bind (self (IdStr <$> drop mid groupeids)
                      res q " OR " func refresh i None w2)
                (fun '(res, i) w3 => Some (Ret (res, i), w3)))
            else Some (Ret (VNone, i), w1)
          else Some (Raise e, w1)
      end
    end
  end.

(** [stacked_query] with a bound [fuel] on the depth of the recursion. *)
Fixpoint stacked_query_rec (fuel : nat) : stacked_query_type :=
  match fuel with
  | O => fun _ _ _ _ _ _ _ _ _ => None
  | S fuel => stacked_query_step (stacked_query_rec fuel)
  end.

(** The wording of the specification for the split, kept apart for
    comparison: the second half is given the accumulator that the call
    on the first half returned. *)
Definition bisect_carrying (self : stacked_query_type)
    (first second : list ident) (res : value) (query : Template.t)
    (joiner : string) (func : adapter) (refresh : bool) (i : Z)
    (total : option Z) (w : world W R)
  : option (outcome (value * Z) * world W R) :=
  bind (self first res query joiner func refresh i total w)
    (fun '(res, i) w2 =>
  bind (self second res query joiner func refresh i total w2)
    (fun '(res, i) w3 => Some (Ret (res, i), w3))).

(** A depth that is always enough for the group at hand. *)
Definition budget (group : list ident) : nat := (7 + length group)%nat.

(** [stacked_query]: the recursion, run to a depth that is enough for
    the group at hand. *)
Definition stacked_query : stacked_query_type :=
  fun group => stacked_query_rec (budget group) group.

End StackedQuery.

(** ** [create_cache] *)

Module Sql.

(** A table of the cache file: the column and key declarations it was
    created with, and its rows. *)
Record table : Type := Table {
  columns : string;
  prim_keys : string;
  rows : list (list string)
}.

(** The two statements [create_cache] sends. *)
Inductive statement : Type :=
  | DropTableIfExists (name : string)
  | CreateTableIfNotExists (name cols keys : string).

(** The text handed to [c.execute]. *)
Definition text (s : statement) : string :=
  match s with
  | DropTableIfExists name => "DROP TABLE IF EXISTS " ++ name
  | CreateTableIfNotExists name cols keys =>
      "CREATE TABLE IF NOT EXISTS " ++ name ++ " (" ++ cols
        ++ ", PRIMARY KEY(" ++ keys ++ "))"
  end.

(** [c.execute(q)] on a database, a finite map from table names to
    tables. Both statements are no-ops when their condition fails. *)
Definition execute (s : statement) (db : gmap string table)
  : gmap string table :=
  match s with
  | DropTableIfExists name => delete name db
  | CreateTableIfNotExists name cols keys =>
      match db !! name with
      | Some _ => db
      | None => <[name := Table cols keys []]> db
      end
  end.

End Sql.

(** One value of the dictionary [CACHE_TABLES]: the ["columns"] entry, a
    list of tuples of words, and the ["primary"] entry. *)
Record variables : Type := MkVariables {
  var_columns : list (list string);
  var_primary : list string
}.

Section CreateCache.

(** [CACHE_TABLES] of [sosia.establishing.constants] is not among the
    sources: it is taken as given, as the list of its items in
    iteration order. A dictionary has no key twice; the properties
    below assume so where they need it. *)
Variable CACHE_TABLES : list (string * variables).

(** [config.get("Cache", "File path")]. *)
Variable config_file_path : string.

(** One turn of the loop over [CACHE_TABLES.items()]. *)
Definition create_table (drop : bool) (db : gmap string Sql.table)
    (item : string * variables) : gmap string Sql.table :=
  let '(table, variables) := item in
  let db :=
    if drop then Sql.execute (Sql.DropTableIfExists table) db else db in
  let columns :=
    Str.join ", " (Str.join " " <$> var_columns variables) in
  let prim_keys := Str.join ", " (var_primary variables) in
  Sql.execute (Sql.CreateTableIfNotExists table columns prim_keys) db.

(** The table that the [CREATE] statement of an item makes when it makes
    one: the declared columns and keys, and no row. *)
Definition empty_table (variables : variables) : Sql.table :=
  Sql.Table (Str.join ", " (Str.join " " <$> var_columns variables))
            (Str.join ", " (var_primary variables)) [].

(** The loop of [create_cache] on an open database. *)
Definition create_tables (drop : bool) (db : gmap string Sql.table)
  : gmap string Sql.table :=
  foldl (create_table drop) db CACHE_TABLES.

(** [if not file]: [None] and the empty string select the default. *)
Definition cache_file (file : option string) : string :=
  match file with
  | Some f => if String.eqb f "" then config_file_path else f
  | None => config_file_path
  end.

(** [create_cache(drop, file)] on the file system, a finite map from
    paths to databases; [sqlite3.connect] opens the file and creates an
    empty database when there is none. *)
Definition create_cache (drop : bool) (file : option string)
    (fs : gmap string (gmap string Sql.table))
  : gmap string (gmap string Sql.table) :=
  let file := cache_file file in
  let db := default ∅ (fs !! file) in
  <[file := create_tables drop db]> fs.

(** The wording of the specification for the destructive mode, kept
    apart for comparison: drop every table, then create every table. *)
Definition drop_all (db : gmap string Sql.table) : gmap string Sql.table :=
  foldl (fun db item => Sql.execute (Sql.DropTableIfExists item.1) db)
    db CACHE_TABLES.

Definition create_all (db : gmap string Sql.table) : gmap string Sql.table :=
  foldl (create_table false) db CACHE_TABLES.

Definition drop_then_create (db : gmap string Sql.table)
  : gmap string Sql.table :=
  create_all (drop_all db).

End CreateCache.

(** ** The key partitioner *)

Module Partitioner.
Section Partitioner.

(** Keys (an author id, or an id with a year) and payloads. *)
Context {K V : Type} `{Countable K}.

(** Modelled from the spec: the partitioner ([authors_in_cache] and its
    siblings in [sosia.cache]) is not among the sources, only its tests
    are. "Deduplicate input keys while preserving first-seen order." *)
Fixpoint dedup (keys : list K) : list K :=
  match keys with
  | [] => []
  | k :: keys' => k :: filter (fun k' => k' ≠ k) (dedup keys')
  end.

(** Modelled from the spec: the Cache Store holds at most one record
    per key; [lookup] "returns the subset of [keys] present in storage". *)
Definition lookup (store : gmap K V) (keys : list K) : list K :=
  filter (fun k => is_Some (store !! k)) keys.

(** Modelled from the spec: "[incache] — the full cached records for
    keys found (joined back to stored payload fields, not just the bare
    keys)". *)
Definition incache (store : gmap K V) (requested : list K) : list (K * V) :=
  omap (fun k => pair k <$> store !! k) (lookup store (dedup requested)).

(** Modelled from the spec: "[tosearch] — the ordered list (or table)
    of keys not found". *)
Definition tosearch (store : gmap K V) (requested : list K) : list K :=
  filter (fun k => k ∉ lookup store (dedup requested)) (dedup requested).

(** Modelled from the spec: [insert] "idempotently persists each
    record; duplicates (matching existing primary key) are silently
    skipped". *)
Definition cache_insert (records : list (K * V)) (store : gmap K V)
  : gmap K V :=
  foldl (fun st '(k, v) =>
           match st !! k with Some _ => st | None => <[k := v]> st end)
    store records.

End Partitioner.
End Partitioner.

(** ** Small worlds for the worked runs *)

Module Demo.

(** Rows are the query strings that produced them. *)
Definition rows_of (q : string) : list string := [q].

(** A service that refuses every query. *)
Definition refuses_all : @adapter unit string :=
  fun _ _ w => (Raise Scopus400Error, w).

(** A service that answers one query only and refuses the rest. *)
Definition answers_only (good : string) : @adapter unit string :=
  fun q _ w =>
    if String.eqb q good then (Ret (Some (rows_of q)), w)
    else (Raise Scopus400Error, w).

(** A service that answers every query. *)
Definition answers_all : @adapter unit string :=
  fun q _ w => (Ret (Some (rows_of q)), w).

(** The four tables of the cache and their keys (the columns are cut
    down to the keys and one field). *)
Definition cache_tables : list (string * variables) :=
  [ ("authors",
     MkVariables [["auth_id"; "int"]; ["surname"; "text"]] ["auth_id"]);
    ("author_year",
     MkVariables [["auth_id"; "int"]; ["year"; "int"]; ["n_pubs"; "int"]]
               ["auth_id"; "year"]);
    ("author_size",
     MkVariables [["auth_id"; "int"]; ["year"; "int"]; ["n_pubs"; "int"]]
               ["auth_id"; "year"]);
    ("sources",
     MkVariables [["source_id"; "int"]; ["year"; "int"]; ["auids"; "text"]]
               ["source_id"; "year"]) ].

(** A cache file that holds one author and a table of another program. *)
Definition used_cache : gmap string (gmap string Sql.table) :=
  {[ "cache.sqlite" :=
       {[ "authors" :=
            Sql.Table "auth_id int, surname text" "auth_id"
              [["53164702100"; "Rose"]];
          "notes" := Sql.Table "body text" "body" [["keep"]] ]} ]}.

(** The caller's empty list, at address [0]. *)
Definition fresh : world unit string :=
  World tt {[ 0%nat := [] ]} [] 0.

(** The wrapped search classes of [query]: the world counts the requests
    sent. Author searches always fail to decode; document searches give
    one document, whose date is the query string. *)
Definition undecodable_authors
  : string -> bool -> nat -> outcome (option (list author)) * nat :=
  fun _ _ n => (Raise (KeyError "search-results"), S n).

Definition dated_documents
  : string -> bool -> nat -> outcome (option (list document)) * nat :=
  fun q _ n => (Ret (Some [Document "2-s2.0-1" q "1;2"]), S n).

End Demo.


(** ** The rest of [queries.py] *)

Module PyStr.

(** [s.split(sep)] for a separator of one character: the pieces between
    the separators, of which there is always at least one. *)
Fixpoint split (sep : ascii) (s : string) : list string :=
  match s with
  | EmptyString => [EmptyString]
  | String c s' =>
      if Ascii.eqb c sep then EmptyString :: split sep s'
      else
        match split sep s' with
        | piece :: pieces => String c piece :: pieces
        | [] => [String c EmptyString]
        end
  end.

(** A string as a condition: [None] and [""] are false. *)
Definition truthy (s : option string) : bool :=
  match s with
  | Some s => negb (String.eqb s "")
  | None => false
  end.

(** [sorted(l, key=key, reverse=True)] for string keys. The sort is
    stable, also in reverse: of two elements with equal keys the one that
    came first stays first. [insert_reverse] puts [x], which came before
    all of [l], in front of the first element whose key is not greater. *)
Fixpoint insert_reverse {A : Type} (key : A -> string) (x : A) (l : list A)
  : list A :=
  match l with
  | [] => [x]
  | y :: l' =>
      if String.leb (key y) (key x) then x :: y :: l'
      else y :: insert_reverse key x l'
  end.

Definition sorted_reverse {A : Type} (key : A -> string) (l : list A)
  : list A :=
  foldr (insert_reverse key) [] l.

End PyStr.

(** A publication as the functions below read it: its [eid], its
    [coverDate] and its [author_ids], which is a string or [None]. *)
Module Pub.

Record t : Type := Make {
  eid : string;
  coverDate : string;
  author_ids : option string
}.

End Pub.

(** A [document] of a search, read as a publication. *)
Definition publication (d : document) : Pub.t :=
  Pub.Make (doc_eid d) (coverDate d) (Some (author_ids d)).

(** [get_authors]. *)
Definition get_authors (pubs : list Pub.t) : list string :=
  let l := omap (fun x => PyStr.split ";" <$> Pub.author_ids x) pubs in
  concat l.

(** One entry of [AbstractRetrieval(...).authorgroup], reduced to the
    two fields that are read. *)
Record affiliation : Type := Affiliation {
  auid : string;
  country : option string
}.

(** [[p for p in pubs if int(p.coverDate[:4]) <= year]]: the first date
    that [int] refuses ends the comprehension with its exception. *)
Fixpoint papers_until (year : Z) (pubs : list Pub.t)
  : outcome (list Pub.t) :=
  match pubs with
  | [] => Ret []
  | p :: pubs' =>
      match PyInt.int (Str.take 4 (Pub.coverDate p)) with
      | Raise e => Raise e
      | Ret y =>
          match papers_until year pubs' with
          | Raise e => Raise e
          | Ret papers => Ret (if y <=? year then p :: papers else papers)
          end
      end
  end.

(** [[a.country for a in authorgroup if a.auid in auth_ids and a.country]]. *)
Definition countries_of (auth_ids : list string)
    (authorgroup : list affiliation) : list string :=
  omap (fun a =>
          if bool_decide (auid a ∈ auth_ids) && PyStr.truthy (country a)
          then country a else None)
       authorgroup.

Section FindCountry.

Context {W : Type}.

(** [AbstractRetrieval(eid).authorgroup]: [None] or a list, or an
    exception. *)
Variable AbstractRetrieval :
  string -> W -> outcome (option (list affiliation)) * W.

(** The [for] loop of [find_country]; running off its end returns
    [None]. *)
Fixpoint find_country_loop (auth_ids : list string) (papers : list Pub.t)
    (w : W) : outcome (option string) * W :=
  match papers with
  | [] => (Ret None, w)
  | p :: papers' =>
      match AbstractRetrieval (Pub.eid p) w with
      | (Raise e, w') => (Raise e, w')
      | (Ret authorgroup, w') =>
          match authorgroup with
          | None | Some [] => find_country_loop auth_ids papers' w'
          | Some authorgroup =>
              match countries_of auth_ids authorgroup with
              | [] => find_country_loop auth_ids papers' w'
              | countries => (Ret (Some (Str.join ";" countries)), w')
              end
          end
      end
  end.

(** [find_country]. *)
Definition find_country (auth_ids : list string) (pubs : list Pub.t)
    (year : Z) (w : W) : outcome (option string) * W :=
  match papers_until year pubs with
  | Raise e => (Raise e, w)
  | Ret papers =>
      let papers := PyStr.sorted_reverse Pub.coverDate papers in
      find_country_loop auth_ids papers w
  end.

End FindCountry.

(** One reference of a retrieved abstract, and the two attributes of
    [AbstractRetrieval(eid, view='FULL', ...)] that [parse_doc] reads;
    either may be [None]. *)
Record reference : Type := Reference { ref_id : string }.

#[global] Instance reference_eq_dec : EqDecision reference.
Proof. solve_decision. Defined.

Record abstract_doc : Type := AbstractDoc {
  abstract : option string;
  references : option (list reference)
}.

(** The dictionary that [parse_doc] returns, with its four keys. *)
Record parsed : Type := Parsed {
  refs : string;
  abstracts : string;
  miss_abs : Z;
  miss_refs : Z
}.

Section ParseDoc.

Context {W : Type}.

(** [AbstractRetrieval(eid, view='FULL', refresh=refresh)]. *)
Variable AbstractRetrievalFull :
  string -> bool -> W -> outcome abstract_doc * W.

(** [clean_abstract] of [sosia.utils] is not among the sources: it is
    taken as given, a function from text to text. *)
Variable clean_abstract : string -> string.

(** The first loop of [parse_doc]: a document that is not found is kept
    as [None]; any other exception ends the loop and the function. *)
Fixpoint retrieve_docs (eids : list string) (refresh : bool) (w : W)
  : outcome (list (option abstract_doc)) * W :=
  match eids with
  | [] => (Ret [], w)
  | eid :: eids' =>
      let '(r, w') := AbstractRetrievalFull eid refresh w in
      let doc :=
        match r with
        | Ret ab => Ret (Some ab)
        | Raise Scopus404Error => Ret None
        | Raise e => Raise e
        end in
      match doc with
      | Raise e => (Raise e, w')
      | Ret doc =>
          match retrieve_docs eids' refresh w' with
          | (Ret docs, w'') => (Ret (doc :: docs), w'')
          | (Raise e, w'') => (Raise e, w'')
          end
      end
  end.

(** [[clean_abstract(ab.abstract) for ab in docs if ab.abstract]]:
    reading an attribute of [None] raises [AttributeError]. *)
Fixpoint clean_abstracts (docs : list (option abstract_doc))
  : outcome (list string) :=
  match docs with
  | [] => Ret []
  | None :: _ => Raise AttributeError
  | Some ab :: docs' =>
      match clean_abstracts docs' with
      | Raise e => Raise e
      | Ret absts =>
          Ret (match abstract ab with
               | Some text =>
                   if PyStr.truthy (Some text)
                   then clean_abstract text :: absts else absts
               | None => absts
               end)
      end
  end.

(** [[ab.references for ab in docs if ab.references]]. *)
Fixpoint reference_lists (docs : list (option abstract_doc))
  : outcome (list (list reference)) :=
  match docs with
  | [] => Ret []
  | None :: _ => Raise AttributeError
  | Some ab :: docs' =>
      match reference_lists docs' with
      | Raise e => Raise e
      | Ret lists =>
          Ret (match references ab with
               | Some (r :: rs) => (r :: rs) :: lists
               | Some [] | None => lists
               end)
      end
  end.

(** [parse_doc]. *)
Definition parse_doc (eids : list string) (refresh : bool) (w : W)
  : outcome parsed * W :=
  match retrieve_docs eids refresh w with
  | (Raise e, w') => (Raise e, w')
  | (Ret docs, w') =>
      match clean_abstracts docs with
      | Raise e => (Raise e, w')
      | Ret absts =>
          match reference_lists docs with
          | Raise e => (Raise e, w')
          | Ret lists =>
              (Ret {| refs := Str.join " " (ref_id <$> concat lists);
                      abstracts := Str.join " " absts;
                      miss_abs :=
                        Z.of_nat (length eids) - Z.of_nat (length absts);
                      miss_refs :=
                        Z.of_nat (length eids) - Z.of_nat (length lists) |},
               w')
          end
      end
  end.

End ParseDoc.

(** The second loop of [query_journal]: [d[year].extend(...)] on a
    [defaultdict(list)], which makes the key when it is missing. *)
Definition authors_by_year (res : list Pub.t) : gmap string (list string) :=
  foldl (fun d pub =>
           let year := Str.take 4 (Pub.coverDate pub) in
           <[year := (default [] (d !! year) ++ get_authors [pub])%list]> d)
        ∅ res.

(** The results of a search read as publications; an author has no
    [coverDate]. *)
Fixpoint publications (res : list entry) : outcome (list Pub.t) :=
  match res with
  | [] => Ret []
  | DocEntry d :: res' =>
      match publications res' with
      | Ret pubs => Ret (publication d :: pubs)
      | Raise e => Raise e
      end
  | AuthorEntry _ :: _ => Raise AttributeError
  end.

Section QueryJournal.

Context {W : Type}.
Variable AuthorSearch :
  string -> bool -> W -> outcome (option (list author)) * W.
Variable ScopusSearch :
  string -> bool -> W -> outcome (option (list document)) * W.

(** [partial(query, "docs")]. *)
Definition query_docs : @adapter W entry :=
  fun q refresh => query AuthorSearch ScopusSearch "docs" q refresh true.

(** The list [res] of the handler lives at this address of a heap of
    its own. *)
Definition res_loc : loc := 0%nat.

(** The loop over [years] in the handler of [query_journal]. The value
    [ext] that [stacked_query] hands back is extended onto [res]; when it
    is [res] itself, the list is appended to itself. *)
Fixpoint year_wise (source_id : ident) (years : list ident)
    (refresh : bool) (w : world W entry)
  : option (outcome unit * world W entry) :=
  match years with
  | [] => Some (Ret tt, w)
  | year :: years' =>
      let q :=
        Template.Template
          ("SOURCE-ID(" ++ str source_id ++ ") AND PUBYEAR IS $fill") in
      match stacked_query [year] (VList res_loc) q "" query_docs refresh
              0 None w with
      | None => None
      | Some (Raise e, w') => Some (Raise e, w')
      | Some (Ret (VNone, _), w') => Some (Raise TypeError, w')
      | Some (Ret (VList ext, _), w') =>
          year_wise source_id years' refresh
            (extend res_loc (default [] (heap w' !! ext)) w')
      end
  end.

(** The first part of [query_journal]: the documents of the source,
    from one search or, when that fails with [ScopusQueryError] or
    [Scopus500Error], year by year. *)
Definition journal_documents (source_id : ident) (years : list ident)
    (refresh : bool) (w : W)
  : option (outcome (option (list entry)) * W) :=
  match query AuthorSearch ScopusSearch "docs"
          ("SOURCE-ID(" ++ str source_id ++ ")") refresh true w with
  | (Ret res, w') => Some (Ret res, w')
  | (Raise e, w') =>
      match e with
      | ScopusQueryError | Scopus500Error =>
          match year_wise source_id years refresh
                  (World w' {[ res_loc := [] ]} [] 0) with
          | None => None
          | Some (Raise e', ww) => Some (Raise e', service ww)
          | Some (Ret _, ww) =>
              Some (Ret (Some (default [] (heap ww !! res_loc))), service ww)
          end
      | _ => Some (Raise e, w')
      end
  end.

(** [query_journal]. Looping over [None] raises [TypeError]. *)
Definition query_journal (source_id : ident) (years : list ident)
    (refresh : bool) (w : W)
  : option (outcome (gmap string (list string)) * W) :=
  match journal_documents source_id years refresh w with
  | None => None
  | Some (Raise e, w') => Some (Raise e, w')
  | Some (Ret None, w') => Some (Raise TypeError, w')
  | Some (Ret (Some res), w') =>
      match publications res with
      | Raise e => Some (Raise e, w')
      | Ret pubs => Some (Ret (authors_by_year pubs), w')
      end
  end.

End QueryJournal.

(** ** Further worlds for the worked runs *)

Module Cases.

(** A service that answers a query unless it names several identifiers
    joined by [" OR "]. *)
Definition answers_singles : @adapter unit string :=
  fun q _ w =>
    if Str.contains " OR " q then (Raise ScopusQueryError, w)
    else (Ret (Some [q]), w).

(** Three papers of two authors; the world counts the abstracts
    retrieved. The oldest paper lists no affiliation. *)
Definition papers : list Pub.t :=
  [ Pub.Make "e1" "2009-05-01" (Some "1;2");
    Pub.Make "e2" "2014-11-30" (Some "1");
    Pub.Make "e3" "2012-01-15" None ].

Definition authorgroups
  : string -> nat -> outcome (option (list affiliation)) * nat :=
  fun eid n =>
    if String.eqb eid "e1" then (Ret None, S n)
    else if String.eqb eid "e2" then
      (Ret (Some [Affiliation "1" (Some "Italy");
                  Affiliation "9" (Some "Spain");
                  Affiliation "1" (Some "")]), S n)
    else if String.eqb eid "e3" then
      (Ret (Some [Affiliation "2" (Some "France");
                  Affiliation "1" (Some "Germany")]), S n)
    else (Raise Scopus404Error, S n).

(** The same abstracts from a cache that always answers. *)
Definition known_authorgroups (eid : string) : option (list affiliation) :=
  if String.eqb eid "e2" then
    Some [Affiliation "1" (Some "Italy");
          Affiliation "9" (Some "Spain");
          Affiliation "1" (Some "")]
  else if String.eqb eid "e3" then
    Some [Affiliation "2" (Some "France");
          Affiliation "1" (Some "Germany")]
  else None.

Definition cached_authorgroups
  : string -> nat -> outcome (option (list affiliation)) * nat :=
  fun eid n => (Ret (known_authorgroups eid), S n).

(** A journal that is too large for one search: the search for the
    source alone is refused, the searches by year are answered with one
    document each. *)
Definition large_journal
  : string -> bool -> nat -> outcome (option (list document)) * nat :=
  fun q _ n =>
    if String.eqb q "SOURCE-ID(22900)" then (Raise ScopusQueryError, S n)
    else if String.eqb q "SOURCE-ID(22900) AND PUBYEAR IS 2010" then
      (Ret (Some [Document "e10" "2010-02-01" "1;2"]), S n)
    else if String.eqb q "SOURCE-ID(22900) AND PUBYEAR IS 2011" then
      (Ret (Some [Document "e11" "2011-07-01" "3"]), S n)
    else (Raise ScopusQueryError, S n).

(** A journal that fits in one search. *)
Definition small_journal
  : string -> bool -> nat -> outcome (option (list document)) * nat :=
  fun q _ n =>
    (Ret (Some [Document "e10" "2010-02-01" "1;2";
                Document "e11" "2011-07-01" "3";
                Document "e12" "2010-09-09" "4"]), S n).

(** Abstracts: the second one is missing from Scopus. *)
Definition full_abstracts
  : string -> bool -> nat -> outcome abstract_doc * nat :=
  fun eid _ n =>
    if String.eqb eid "e2" then (Raise Scopus404Error, S n)
    else
      (Ret (AbstractDoc (Some ("Abstract of " ++ eid))
              (Some [Reference ("r-" ++ eid)])), S n).

(** An author search whose first answer cannot be decoded; the world
    counts the requests sent. *)
Definition flaky_authors
  : string -> bool -> nat -> outcome (option (list author)) * nat :=
  fun _ _ n =>
    match n with
    | O => (Raise (KeyError "search-results"), S n)
    | _ => (Ret (Some [Author "9-s2.0-53164702100" "Rose"]), S n)
    end.

End Cases.

(** ** Observing the searches of [stacked_query] *)

(** Whether a search came back with a list. *)
Definition answered {R : Type} (r : outcome (option (list R))) : bool :=
  match r with
  | Ret (Some _) => true
  | _ => false
  end.

(** Not part of the program: the search function [func] with an observer
    beside it. It does what [func] does, and keeps in the outside world
    a record of the searches it was asked for, oldest first, each with
    the flag [answered]. The statements about the searches that a run
    sends, and about which of them were answered, are written with it. *)
Definition recorded {W R : Type} (func : @adapter W R)
  : @adapter (W * list (string * bool)) R :=
  fun q refresh st =>
    let '(r, sv) := func q refresh st.1 in
    (r, (sv, (st.2 ++ [(q, answered r)])%list)).

(** A world with a record beside the state of the service; the record of
    such a world; and the world with the record left out. *)
Definition with_record {W R : Type} (sent : list (string * bool))
    (w : world W R) : world (W * list (string * bool)) R :=
  World (service w, sent) (heap w) (progress w) (calls w).

Definition record {W R : Type} (w : world (W * list (string * bool)) R)
  : list (string * bool) :=
  (service w).2.

Definition without_record {W R : Type}
    (w : world (W * list (string * bool)) R) : world W R :=
  World (service w).1 (heap w) (progress w) (calls w).

Definition forget {W R A : Type}
    (m : option (outcome A * world (W * list (string * bool)) R))
  : option (outcome A * world W R) :=
  match m with
  | Some (r, w) => Some (r, without_record w)
  | None => None
  end.

(** The number of answered searches in a record. *)
Definition successes (sent : list (string * bool)) : nat :=
  length (filter (fun entry => entry.2 = true) sent).
(** * Properties *)

(** ** Sanity checks of the string models *)

Example substitute_author :
  Template.substitute (Template.Template "AU-ID($fill)") "7) OR AU-ID(8"
  = Ret "AU-ID(7) OR AU-ID(8)".
Proof. reflexivity. Qed.

Example substitute_braced :
  Template.substitute (Template.Template "a${fill}b$$c") "X" = Ret "aXb$c".
Proof. reflexivity. Qed.

Example substitute_unknown_name :
  Template.substitute (Template.Template "A$B 7 AND EID($fill)") "*0"
  = Raise (KeyError "B").
Proof. reflexivity. Qed.

Example substitute_lone_dollar :
  Template.substitute (Template.Template "cost $ AND EID($fill)") "*0"
  = Raise ValueError.
Proof. reflexivity. Qed.

Example int_year : PyInt.int (Str.take 4 "2016-03-01") = Ret 2016.
Proof. reflexivity. Qed.

Example int_spaces : PyInt.int " -12 " = Ret (-12).
Proof. reflexivity. Qed.

Example int_garbage : PyInt.int (Str.take 4 "n/a") = Raise ValueError.
Proof. reflexivity. Qed.

Example int_empty : PyInt.int "" = Raise ValueError.
Proof. reflexivity. Qed.

(** [int] takes the whitespace of C around the digits, and not the
    separator [0x1c]. *)
Example int_whitespace :
  PyInt.int (String (ascii_of_nat 9) "201" ++ String (ascii_of_nat 10) " ")
  = Ret 201
  /\ PyInt.int (String (ascii_of_nat 28) "201") = Raise ValueError.
Proof. split; reflexivity. Qed.

Example int_underscores :
  PyInt.int "1_0" = Ret 10 /\ PyInt.int "1__0" = Raise ValueError
  /\ PyInt.int "_10" = Raise ValueError /\ PyInt.int "+ 1" = Raise ValueError.
Proof. repeat split; reflexivity. Qed.

(** ** Substrings *)

Lemma prefix_app (m s : string) : String.prefix m (m ++ s) = true.
Proof.
  induction m as [|c m IH]; simpl.
  - by destruct s.
  - destruct (ascii_dec c c); [exact IH | congruence].
Qed.

Lemma contains_prefix (m h : string) :
  String.prefix m h = true -> Str.contains m h = true.
Proof. destruct h; simpl; intros ->; reflexivity. Qed.

Lemma contains_here (m s : string) : Str.contains m (m ++ s) = true.
Proof. apply contains_prefix, prefix_app. Qed.

Lemma contains_cons (m : string) (c : ascii) (s : string) :
  Str.contains m s = true -> Str.contains m (String c s) = true.
Proof. intros Hs. simpl. rewrite Hs. apply orb_true_r. Qed.

Lemma contains_app (m p s : string) :
  Str.contains m s = true -> Str.contains m (p ++ s) = true.
Proof.
  intros Hs. induction p as [|c p IH]; [exact Hs|].
  change (String c p ++ s) with (String c (p ++ s)).
  by apply contains_cons.
Qed.

Lemma contains_middle (m p s : string) : Str.contains m (p ++ m ++ s) = true.
Proof. apply contains_app, contains_here. Qed.

(** ** Templates that carry the scoping clause *)

Ltac scan_cases :=
  repeat match goal with
  | H : Raise _ = Ret _ |- _ => discriminate H
  | H : (if ?b then _ else _) = Ret _ |- _ => destruct b
  | H : match Template.lookup ?f ?n with _ => _ end = Ret _ |- _ =>
      destruct (Template.lookup f n) as [?v|?]
  | H : Template.emit _ (Template.scan ?f ?m ?s) = Ret _ |- _ =>
      destruct (Template.scan f m s) eqn:?; simpl in H
  | H : Ret _ = Ret _ |- _ => injection H as <-
  end.

Lemma scan_clause (fill : string) (m : Template.mode) (q out : string) :
  Template.scan fill m (q ++ scoping_clause) = Ret out ->
  Str.contains marker out = true.
Proof.
  revert m out. induction q as [|c q IH]; intros m out H.
  - change ("" ++ scoping_clause) with scoping_clause in H.
    destruct m; simpl in H; scan_cases.
    + exact (contains_middle marker " " ((fill ++ ")") ++ "")).
    + exact (contains_middle marker (v ++ " ") ((fill ++ ")") ++ "")).
  - change (String c q ++ scoping_clause)
      with (String c (q ++ scoping_clause)) in H.
    destruct m; simpl in H; scan_cases;
      try (apply contains_app); eapply IH; eassumption.
Qed.

Lemma scoped_clause (q : string) :
  scoped (Template.Template (q ++ scoping_clause)).
Proof. intros fill out. apply scan_clause. Qed.

(** ** The recursion of [stacked_query] *)

Section StackedQueryRecursion.

Context {W R : Type}.
Implicit Types (w : world W R) (func : @adapter W R) (group : list ident).
Implicit Types (self : @stacked_query_type W R).

Lemma call_calls func q refresh w r w1 :
  call func q refresh w = (r, w1) ->
  calls w1 = S (calls w) /\ heap w1 = heap w /\ progress w1 = progress w.
Proof.
  unfold call. destruct (run func q refresh (service w)) as [r' sv].
  intros [= <- <-]. auto.
Qed.

Lemma bind_mono {A B : Type} (m m' : option (outcome A * world W R))
    (k k' : A -> world W R -> option (outcome B * world W R)) out :
  (forall o, m = Some o -> m' = Some o) ->
  (forall a w o, k a w = Some o -> k' a w = Some o) ->
  bind m k = Some out -> bind m' k' = Some out.
Proof.
  intros Hm Hk. destruct m as [[[a|e] w]|]; simpl; intros H.
  - rewrite (Hm _ eq_refl). simpl. auto.
  - rewrite (Hm _ eq_refl). exact H.
  - discriminate.
Qed.

Lemma bind_ret {A B : Type} (a : A) w
    (k : A -> world W R -> option (outcome B * world W R)) :
  bind (Some (Ret a, w)) k = k a w.
Proof. reflexivity. Qed.

Lemma bind_raise {A B : Type} (e : exn) w
    (k : A -> world W R -> option (outcome B * world W R)) :
  bind (Some (Raise e, w)) k = Some (Raise e, w).
Proof. reflexivity. Qed.

(** The body is monotone in the function used for the recursive calls. *)
Lemma stacked_query_step_mono self self' :
  (forall group res query joiner func refresh i total w out,
     self group res query joiner func refresh i total w = Some out ->
     self' group res query joiner func refresh i total w = Some out) ->
  forall group res query joiner func refresh i total w out,
    stacked_query_step self group res query joiner func refresh i total w
      = Some out ->
    stacked_query_step self' group res query joiner func refresh i total w
      = Some out.
Proof.
  intros Hself group res query joiner func refresh i total w out.
  unfold stacked_query_step.
  destruct (Template.substitute _ _) as [q|?]; [|done].
  destruct res as [|l]; [done|].
  destruct (call func q refresh w) as [[[rows|]|e] w1]; [done|done|].
  destruct (split_class e); [|done].
  destruct (1 <? _)%nat; [|destruct (negb _); [|done]].
  - apply bind_mono; [auto|]. intros [_v i1] w2 o.
    apply bind_mono; auto.
  - apply bind_mono; [auto|]. intros [_v i1] w2 o.
    apply bind_mono; auto.
Qed.

Lemma stacked_query_rec_mono fuel fuel' :
  (fuel <= fuel')%nat ->
  forall group res query joiner func refresh i total w out,
    stacked_query_rec fuel group res query joiner func refresh i total w
      = Some out ->
    stacked_query_rec fuel' group res query joiner func refresh i total w
      = Some out.
Proof.
  revert fuel'. induction fuel as [|fuel IH]; intros fuel' Hle; [done|].
  destruct fuel' as [|fuel']; [lia|]. simpl.
  apply stacked_query_step_mono, IH. lia.
Qed.

Lemma half_bounds (n : nat) :
  (1 < n)%nat -> (1 <= n / 2 /\ n / 2 < n)%nat.
Proof.
  intros Hn. pose proof (Nat.div_mod_eq n 2).
  pose proof (Nat.mod_upper_bound n 2). lia.
Qed.

Lemma halves_lengths (strs : list string) :
  (1 < length strs)%nat ->
  (1 <= length (IdStr <$> take (length strs / 2) strs) /\
   1 <= length (IdStr <$> drop (length strs / 2) strs) /\
   length (IdStr <$> take (length strs / 2) strs)
   + length (IdStr <$> drop (length strs / 2) strs) = length strs)%nat.
Proof.
  intros Hn. destruct (half_bounds _ Hn).
  rewrite !length_fmap, length_take, length_drop. lia.
Qed.

(** With a scoped template the fallback tier is closed: the recursion
    only halves, so a depth above the size of the group is enough, and a
    group of [n] identifiers costs fewer than [2 * max 1 n] calls. *)
Lemma stacked_query_rec_scoped fuel :
  forall group res query joiner func refresh i total w,
    scoped query ->
    (length group < fuel)%nat ->
    exists r w',
      stacked_query_rec fuel group res query joiner func refresh i total w
        = Some (r, w') /\
      (calls w' + 1 <= calls w + 2 * Nat.max 1 (length group))%nat.
Proof.
  induction fuel as [|fuel IH];
    intros group res query joiner func refresh i total w Hsc Hfuel; [lia|].
  simpl. unfold stacked_query_step.
  destruct (Template.substitute _ _) as [q|e] eqn:Hq;
    [|eexists _, _; split; [done|lia]].
  destruct res as [|l]; [eexists _, _; split; [done|lia]|].
  destruct (call func q refresh w) as [[[rows|]|e] w1] eqn:Hcall;
    apply call_calls in Hcall as (Hc & _ & _).
  - destruct (truthy total); eexists _, _; (split; [done|simpl; lia]).
  - eexists _, _; split; [done|lia].
  - destruct (split_class e); [|eexists _, _; split; [done|lia]].
    rewrite (Hsc _ _ Hq). simpl negb. cbv iota.
    destruct (1 <? _)%nat eqn:Hlen; [|eexists _, _; split; [done|lia]].
    apply Nat.ltb_lt in Hlen.
    destruct (halves_lengths _ Hlen) as (H1 & H2 & Hsum).
    pose proof (length_fmap str group) as Hg.
    edestruct (IH (IdStr <$> take (length (str <$> group) / 2) (str <$> group))
                 (VList l) query joiner func refresh i total w1)
      as (r1 & w2 & -> & Hc1); [done|lia|].
    destruct r1 as [[v1 i1]|e1];
      [rewrite bind_ret; cbv beta iota
      |rewrite bind_raise; eexists _, _; split; [done|lia]].
    edestruct (IH (IdStr <$> drop (length (str <$> group) / 2) (str <$> group))
                 (VList l) query joiner func refresh i1 total w2)
      as (r2 & w3 & -> & Hc2); [done|lia|].
    destruct r2 as [[v2 i2]|e2]; [rewrite bind_ret|rewrite bind_raise];
      eexists _, _; (split; [done|lia]).
Qed.

(** In general one more tier can open below a group of at most one
    identifier: ten tokens, five and five, under a scoped template. *)
Lemma stacked_query_rec_enough fuel :
  forall group res query joiner func refresh i total w,
    (length group + 6 < fuel)%nat ->
    exists r w',
      stacked_query_rec fuel group res query joiner func refresh i total w
        = Some (r, w') /\
      (calls w' + 1 <= calls w + 20 * Nat.max 1 (length group))%nat.
Proof.
  induction fuel as [|fuel IH];
    intros group res query joiner func refresh i total w Hfuel; [lia|].
  simpl. unfold stacked_query_step.
  destruct (Template.substitute _ _) as [q|e] eqn:Hq;
    [|eexists _, _; split; [done|lia]].
  destruct res as [|l]; [eexists _, _; split; [done|lia]|].
  destruct (call func q refresh w) as [[[rows|]|e] w1] eqn:Hcall;
    apply call_calls in Hcall as (Hc & _ & _).
  - destruct (truthy total); eexists _, _; (split; [done|simpl; lia]).
  - eexists _, _; split; [done|lia].
  - destruct (split_class e); [|eexists _, _; split; [done|lia]].
    destruct (1 <? _)%nat eqn:Hlen.
    + apply Nat.ltb_lt in Hlen.
      destruct (halves_lengths _ Hlen) as (H1 & H2 & Hsum).
      pose proof (length_fmap str group) as Hg.
      edestruct (IH (IdStr <$> take (length (str <$> group) / 2) (str <$> group))
                   (VList l) query joiner func refresh i total w1)
        as (r1 & w2 & -> & Hc1); [lia|].
      destruct r1 as [[v1 i1]|e1];
      [rewrite bind_ret; cbv beta iota
      |rewrite bind_raise; eexists _, _; split; [done|lia]].
      edestruct (IH (IdStr <$> drop (length (str <$> group) / 2) (str <$> group))
                   (VList l) query joiner func refresh i1 total w2)
        as (r2 & w3 & -> & Hc2); [lia|].
      destruct r2 as [[v2 i2]|e2]; [rewrite bind_ret|rewrite bind_raise];
      eexists _, _; (split; [done|lia]).
    + destruct (negb _); [|eexists _, _; split; [done|lia]].
      edestruct (stacked_query_rec_scoped fuel
                   (IdStr <$> take (length groupeids / 2) groupeids)
                   (VList l) (Template.Template (q ++ scoping_clause))
                   " OR " func refresh i None w1)
        as (r1 & w2 & -> & Hc1); [apply scoped_clause|simpl; lia|].
      simpl in Hc1.
      destruct r1 as [[v1 i1]|e1];
      [rewrite bind_ret; cbv beta iota
      |rewrite bind_raise; eexists _, _; split; [done|lia]].
      edestruct (stacked_query_rec_scoped fuel
                   (IdStr <$> drop (length groupeids / 2) groupeids)
                   (VList l) (Template.Template (q ++ scoping_clause))
                   " OR " func refresh i1 None w2)
        as (r2 & w3 & -> & Hc2); [apply scoped_clause|simpl; lia|].
      simpl in Hc2.
      destruct r2 as [[v2 i2]|e2]; [rewrite bind_ret|rewrite bind_raise];
      eexists _, _; (split; [done|lia]).
Qed.

End StackedQueryRecursion.

Section StackedQueryProperties.

Context {W R : Type}.
Implicit Types (w : world W R) (func : @adapter W R) (group : list ident).

Lemma stacked_query_total group res query joiner func refresh i total w :
  exists r w',
    stacked_query group res query joiner func refresh i total w
      = Some (r, w') /\
    (calls w' + 1 <= calls w + 20 * Nat.max 1 (length group))%nat.
Proof. apply stacked_query_rec_enough. unfold budget. lia. Qed.

(** Whatever depth lets the recursion finish gives the result of
    [stacked_query]. *)
Lemma stacked_query_rec_stable fuel group res query joiner func refresh
    i total w out :
  stacked_query_rec fuel group res query joiner func refresh i total w
    = Some out ->
  stacked_query group res query joiner func refresh i total w = Some out.
Proof.
  intros Hrec.
  destruct (stacked_query_total group res query joiner func refresh i total w)
    as (r & w' & Hs & _).
  rewrite Hs.
  apply (stacked_query_rec_mono _ (Nat.max fuel (budget group))) in Hrec;
    [|lia].
  apply (stacked_query_rec_mono _ (Nat.max fuel (budget group))) in Hs;
    [|lia].
  congruence.
Qed.

(** The recursive equation of the source. *)
Lemma stacked_query_unfold group res query joiner func refresh i total w :
  stacked_query group res query joiner func refresh i total w
  = stacked_query_step stacked_query
      group res query joiner func refresh i total w.
Proof.
  destruct (stacked_query_total group res query joiner func refresh i total w)
    as (r & w' & Hs & _).
  rewrite Hs. symmetry.
  apply (stacked_query_step_mono (stacked_query_rec (6 + length group))).
  - intros. by eapply stacked_query_rec_stable.
  - exact Hs.
Qed.


(** The split: when the query of a group of more than one identifier
    fails with one of the three caught errors, the group is cut at
    [len(group) // 2]; the first half is processed, then the second.
    The second call is given the counter that the first call returned and
    the list that was passed in (the entry ["res"] of [params], which is
    never updated), in the state the first call left it. *)
Lemma stacked_query_split group l query joiner func refresh i total w
    q e w1 :
  Template.substitute query (Str.join joiner (str <$> group)) = Ret q ->
  call func q refresh w = (Raise e, w1) ->
  split_class e = true ->
  (1 < length group)%nat ->
  stacked_query group (VList l) query joiner func refresh i total w
  = bind (stacked_query (IdStr <$> take (length group / 2) (str <$> group))
            (VList l) query joiner func refresh i total w1)
      (fun '(_, i1) w2 =>
    bind (stacked_query (IdStr <$> drop (length group / 2) (str <$> group))
            (VList l) query joiner func refresh i1 total w2)
      (fun '(res2, i2) w3 => Some (Ret (res2, i2), w3))).
Proof.
  intros Hq Hcall He Hlen.
  rewrite stacked_query_unfold at 1. unfold stacked_query_step.
  rewrite Hq, Hcall, He, length_fmap.
  by destruct (Nat.ltb_spec 1 (length group)); [|lia].
Qed.


(** C4. [stacked_query] returns on every input: the depth [budget group]
    is enough, any larger depth gives the same result, and the search
    function is called fewer than [20 * max 1 (len group)] times. *)
Theorem stacked_query_terminates group res query joiner func refresh i
    total w :
  exists r w',
    stacked_query group res query joiner func refresh i total w
      = Some (r, w') /\
    (forall extra : nat,
       stacked_query_rec (budget group + extra) group res query joiner func
         refresh i total w = Some (r, w')) /\
    (calls w' - calls w < 20 * Nat.max 1 (length group))%nat.
Proof.
  destruct (stacked_query_total group res query joiner func refresh i total w)
    as (r & w' & Hs & Hcalls).
  exists r, w'. split; [exact Hs|]. split; [|lia].
  intros extra. eapply stacked_query_rec_mono; [|exact Hs]. lia.
Qed.

(** C9 (as amended). When the search succeeds, the identifiers having
    been made strings to build the query, the rows are appended to the
    list; if [total] is truthy (given and not zero) the counter advances
    by the size of the group and the progress is printed; otherwise the
    counter is left as it was and nothing is printed. *)
Theorem stacked_query_success group l query joiner func refresh i total w
    q rows w1 :
  Template.substitute query (Str.join joiner (str <$> group)) = Ret q ->
  call func q refresh w = (Ret (Some rows), w1) ->
  stacked_query group (VList l) query joiner func refresh i total w
  = (if truthy total then
       Some (Ret (VList l, i + Z.of_nat (length group)),
             print_progress (i + Z.of_nat (length group)) total
               (extend l rows w1))
     else Some (Ret (VList l, i), extend l rows w1))
  /\ heap (extend l rows w1) !! l
     = Some (default [] (heap w !! l) ++ rows)%list.
Proof.
  intros Hq Hcall. split.
  - rewrite stacked_query_unfold. unfold stacked_query_step.
    rewrite Hq, Hcall, length_fmap. reflexivity.
  - apply call_calls in Hcall as (_ & Hheap & _).
    unfold extend. simpl. rewrite Hheap. apply lookup_insert_eq.
Qed.

End StackedQueryProperties.

Section StackedQueryCounter.

Context {W R : Type}.
Implicit Types (w : world W R) (func : @adapter W R) (group : list ident).

Lemma bind_returns {A B : Type} (m : option (outcome A * world W R))
    (k : A -> world W R -> option (outcome B * world W R)) b w' :
  bind m k = Some (Ret b, w') ->
  exists a w2, m = Some (Ret a, w2) /\ k a w2 = Some (Ret b, w').
Proof.
  destruct m as [[[a|e] w2]|]; simpl; intros Hk; [eauto|done|done].
Qed.

(** What one run adds to the terminal, and how the counter moves with
    it: the counter never goes down, it moves only if something was
    printed, and nothing is printed when [total] is falsy. *)
Lemma stacked_query_rec_counter fuel :
  forall group res query joiner func refresh i total w res' i' w',
    stacked_query_rec fuel group res query joiner func refresh i total w
      = Some (Ret (res', i'), w') ->
    exists new,
      progress w' = (progress w ++ new)%list /\
      i <= i' /\
      (new = [] -> i' = i) /\
      (truthy total = false -> new = []).
Proof.
  induction fuel as [|fuel IH];
    intros group res query joiner func refresh i total w res' i' w' Hrun;
    [done|].
  simpl in Hrun. unfold stacked_query_step in Hrun.
  destruct (Template.substitute _ _) as [q|?]; [|done].
  destruct res as [|l]; [done|].
  destruct (call func q refresh w) as [[[rows|]|e] w1] eqn:Hcall;
    apply call_calls in Hcall as (_ & _ & Hp); [|done|].
  - destruct (truthy total) eqn:Ht; injection Hrun as <- <- <-.
    + eexists [_]. simpl. rewrite Hp. repeat split; [lia|done|done].
    + exists []. simpl. rewrite Hp, app_nil_r. done.
  - destruct (split_class e); [|done].
    destruct (1 <? _)%nat; [|destruct (negb _)].
    + apply bind_returns in Hrun as ([v1 i1] & w2 & Hfirst & Hrun).
      apply bind_returns in Hrun as ([v2 i2] & w3 & Hsecond & Hrun).
      injection Hrun as <- <- <-.
      apply IH in Hfirst as (new1 & Hp1 & Hle1 & Hnil1 & Hf1).
      apply IH in Hsecond as (new2 & Hp2 & Hle2 & Hnil2 & Hf2).
      exists (new1 ++ new2)%list.
      rewrite Hp2, Hp1, Hp, app_assoc. repeat split; [lia| |].
      * intros [-> ->]%app_eq_nil. rewrite Hnil2, Hnil1; done.
      * intros Ht. rewrite Hf1, Hf2; done.
    + apply bind_returns in Hrun as ([v1 i1] & w2 & Hfirst & Hrun).
      apply bind_returns in Hrun as ([v2 i2] & w3 & Hsecond & Hrun).
      injection Hrun as <- <- <-.
      apply IH in Hfirst as (new1 & Hp1 & Hle1 & Hnil1 & Hf1).
      apply IH in Hsecond as (new2 & Hp2 & Hle2 & Hnil2 & Hf2).
      specialize (Hf1 eq_refl). specialize (Hf2 eq_refl). subst new1 new2.
      exists []. rewrite Hp2, Hp1, Hp, !app_nil_r.
      rewrite Hnil2, Hnil1; done.
    + injection Hrun as <- <- <-. exists [].
      rewrite Hp, app_nil_r. done.
Qed.

(** The value handed back is the list that was passed in, or [None]. *)
Lemma stacked_query_rec_value fuel :
  forall group res query joiner func refresh i total w res' i' w',
    stacked_query_rec fuel group res query joiner func refresh i total w
      = Some (Ret (res', i'), w') ->
    res' = res \/ res' = VNone.
Proof.
  induction fuel as [|fuel IH];
    intros group res query joiner func refresh i total w res' i' w' Hrun;
    [done|].
  simpl in Hrun. unfold stacked_query_step in Hrun.
  destruct (Template.substitute _ _) as [q|?]; [|done].
  destruct res as [|l]; [done|].
  destruct (call func q refresh w) as [[[rows|]|e] w1]; [|done|].
  - destruct (truthy total); injection Hrun as <- <- <-; auto.
  - destruct (split_class e); [|done].
    destruct (1 <? _)%nat; [|destruct (negb _)].
    + apply bind_returns in Hrun as ([v1 i1] & w2 & _ & Hrun).
      apply bind_returns in Hrun as ([v2 i2] & w3 & Hsecond & Hrun).
      injection Hrun as <- <- <-. by apply IH in Hsecond.
    + apply bind_returns in Hrun as ([v1 i1] & w2 & _ & Hrun).
      apply bind_returns in Hrun as ([v2 i2] & w3 & Hsecond & Hrun).
      injection Hrun as <- <- <-. by apply IH in Hsecond.
    + injection Hrun as <- <- <-. auto.
Qed.

End StackedQueryCounter.

(** ** The searches that a run of [stacked_query] sends *)

Section StackedQueryRecorded.

Context {W R : Type}.
Implicit Types (w : world W R) (func : @adapter W R) (group : list ident).
Implicit Types (wr : world (W * list (string * bool)) R).
Implicit Types (sent : list (string * bool)).

Lemma without_with_record sent w : without_record (with_record sent w) = w.
Proof. by destruct w. Qed.

Lemma with_without_record wr :
  with_record (record wr) (without_record wr) = wr.
Proof. by destruct wr as [[sv sent] hp pr n]. Qed.

(** A search through the observer is the search itself, with one entry
    more in the record. *)
Lemma call_recorded func q refresh wr :
  call (recorded func) q refresh wr
  = ((call func q refresh (without_record wr)).1,
     with_record
       (record wr ++ [(q, answered (call func q refresh (without_record wr)).1)])
       (call func q refresh (without_record wr)).2).
Proof.
  destruct wr as [[sv sent] hp pr n].
  unfold call, run, recorded, without_record, with_record, record. simpl.
  by destruct (func q refresh sv) as [r sv'].
Qed.

Lemma forget_bind {A B : Type}
    (m : option (outcome A * world (W * list (string * bool)) R))
    (k : A -> world (W * list (string * bool)) R ->
         option (outcome B * world (W * list (string * bool)) R))
    (k' : A -> world W R -> option (outcome B * world W R)) :
  (forall a wr, forget (k a wr) = k' a (without_record wr)) ->
  forget (bind m k) = bind (forget m) k'.
Proof. intros Hk. destruct m as [[[a|e] wr]|]; simpl; auto. Qed.

(** The observer does not change the run: with the record left out, the
    run through the observer is the run of [func]. *)
Lemma stacked_query_rec_forget fuel :
  forall group res query joiner func refresh i total wr,
    forget (stacked_query_rec fuel group res query joiner (recorded func)
              refresh i total wr)
    = stacked_query_rec fuel group res query joiner func refresh i total
        (without_record wr).
Proof.
  induction fuel as [|fuel IH];
    intros group res query joiner func refresh i total wr; [done|].
  cbn [stacked_query_rec]. unfold stacked_query_step.
  destruct (Template.substitute _ _) as [q|?]; [|done].
  destruct res as [|l]; [done|].
  rewrite call_recorded.
  destruct (call func q refresh (without_record wr)) as [[[rows|]|e] w1];
    cbn [fst snd]; [|by destruct w1|].
  - destruct (truthy total); by destruct w1.
  - destruct (split_class e); [|by destruct w1].
    destruct (1 <? _)%nat; [|destruct (negb _); [|by destruct w1]].
    + erewrite forget_bind; [rewrite IH, without_with_record; reflexivity|].
      intros [v1 i1] wr2.
      erewrite forget_bind; [rewrite IH; reflexivity|].
      by intros [v2 i2] wr3.
    + erewrite forget_bind; [rewrite IH, without_with_record; reflexivity|].
      intros [v1 i1] wr2.
      erewrite forget_bind; [rewrite IH; reflexivity|].
      by intros [v2 i2] wr3.
Qed.

Lemma successes_app sent1 sent2 :
  successes (sent1 ++ sent2) = (successes sent1 + successes sent2)%nat.
Proof. unfold successes. by rewrite filter_app, length_app. Qed.


(** What a run adds to the record, and how the counter moves with it:
    the counter moves by at most the size of the group for each answered
    search, and not at all when [total] is falsy. *)
Lemma stacked_query_rec_answers fuel :
  forall group res query joiner func refresh i total wr res' i' wr',
    stacked_query_rec fuel group res query joiner (recorded func) refresh i
      total wr = Some (Ret (res', i'), wr') ->
    exists sent,
      record wr' = (record wr ++ sent)%list /\
      calls wr' = (calls wr + length sent)%nat /\
      i <= i' /\
      i' - i <= Z.of_nat (successes sent) * Z.of_nat (length group) /\
      (truthy total = false -> i' = i).
Proof.
  induction fuel as [|fuel IH];
    intros group res query joiner func refresh i total wr res' i' wr' Hrun;
    [done|].
  cbn [stacked_query_rec] in Hrun. unfold stacked_query_step in Hrun.
  destruct (Template.substitute _ _) as [q|?]; [|done].
  destruct res as [|l]; [done|].
  rewrite call_recorded in Hrun.
  destruct (call func q refresh (without_record wr)) as [[[rows|]|e] w1]
    eqn:Hcall; cbn [fst snd answered] in Hrun; [|done|];
    apply call_calls in Hcall as (Hcalls & _ & _); simpl in Hcalls.
  - rewrite length_fmap in Hrun.
    exists [(q, true)].
    destruct (truthy total) eqn:Ht; injection Hrun as <- <- <-;
      (split; [done|]); (split; [simpl; lia|]);
      unfold successes; simpl; repeat split; try lia; done.
  - destruct (split_class e); [|done].
    destruct (1 <? _)%nat eqn:Hlen; [|destruct (negb _)].
    + clear Hlen.
      apply bind_returns in Hrun as ([v1 i1] & wr2 & Hfirst & Hrun).
      apply bind_returns in Hrun as ([v2 i2] & wr3 & Hsecond & Hrun).
      injection Hrun as <- <- <-.
      apply IH in Hfirst as (sent1 & Hr1 & Hc1 & Hle1 & Hb1 & Hf1).
      apply IH in Hsecond as (sent2 & Hr2 & Hc2 & Hle2 & Hb2 & Hf2).
      rewrite length_fmap in Hb1, Hb2.
      assert (length (take (length (str <$> group) / 2) (str <$> group))
              <= length group)%nat as Htake
        by (rewrite length_take, length_fmap; lia).
      assert (length (drop (length (str <$> group) / 2) (str <$> group))
              <= length group)%nat as Hdrop
        by (rewrite length_drop, length_fmap; lia).
      unfold record in *. simpl in Hr1, Hc1.
      exists ((q, false) :: sent1 ++ sent2)%list.
      split; [rewrite Hr2, Hr1; by rewrite <- !app_assoc|].
      split; [rewrite Hc2, Hc1; simpl; rewrite length_app; lia|].
      split; [lia|]. split.
      * change ((q, false) :: sent1 ++ sent2)%list
          with ([(q, false)] ++ (sent1 ++ sent2))%list.
        rewrite !successes_app. change (successes [(q, false)]) with 0%nat.
        nia.
      * intros Ht. rewrite Hf2, Hf1; done.
    + apply bind_returns in Hrun as ([v1 i1] & wr2 & Hfirst & Hrun).
      apply bind_returns in Hrun as ([v2 i2] & wr3 & Hsecond & Hrun).
      injection Hrun as <- <- <-.
      apply IH in Hfirst as (sent1 & Hr1 & Hc1 & _ & _ & Hf1).
      apply IH in Hsecond as (sent2 & Hr2 & Hc2 & _ & _ & Hf2).
      specialize (Hf1 eq_refl). specialize (Hf2 eq_refl). subst i1 i2.
      unfold record in *. simpl in Hr1, Hc1.
      exists ((q, false) :: sent1 ++ sent2)%list.
      split; [rewrite Hr2, Hr1; by rewrite <- !app_assoc|].
      split; [rewrite Hc2, Hc1; simpl; rewrite length_app; lia|].
      split; [lia|]. split; [nia|done].
    + injection Hrun as <- <- <-. exists [(q, false)].
      split; [done|]. split; [simpl; lia|]. split; [lia|].
      split; [nia|done].
Qed.



End StackedQueryRecorded.

(** ** [stacked_query] on concrete runs *)



(** C3, on a run the code can meet: two authors, of whom only the first
    can be fetched. The rows of the first are in the caller's list, yet
    the value handed back is [None], not that list. *)
Theorem stacked_query_hands_back_None :
  stacked_query [IdInt 1; IdInt 2] (VList 0%nat)
    (Template.Template "AU-ID($fill)") ") OR AU-ID("
    (Demo.answers_only "AU-ID(1)") false 0 None Demo.fresh
  = Some (Ret (VNone, 0), World tt {[ 0%nat := ["AU-ID(1)"] ]} [] 21).
Proof. vm_compute. reflexivity. Qed.

Lemma stacked_query_success_witness :
  let group := [IdInt 7; IdStr "8"] in
  let w1 := World tt {[ 0%nat := [] ]} [] 1 in
  let rows := ["AU-ID(7) OR AU-ID(8)"] in
  stacked_query group (VList 0%nat) (Template.Template "AU-ID($fill)")
    ") OR AU-ID(" Demo.answers_all false 5 (Some 2) Demo.fresh
  = (if truthy (Some 2) then
       Some (Ret (VList 0%nat, 5 + Z.of_nat (length group)),
             print_progress (5 + Z.of_nat (length group)) (Some 2)
               (extend 0%nat rows w1))
     else Some (Ret (VList 0%nat, 5), extend 0%nat rows w1))
  /\ heap (extend 0%nat rows w1) !! 0%nat
     = Some (default [] (heap Demo.fresh !! 0%nat) ++ rows)%list.
Proof.
  intros group w1 rows.
  apply (stacked_query_success group 0%nat (Template.Template "AU-ID($fill)")
           ") OR AU-ID(" Demo.answers_all false 5 (Some 2) Demo.fresh
           "AU-ID(7) OR AU-ID(8)" rows w1); reflexivity.
Defined.

(** C9, as stated, fails when the total that was given is [0]: the
    search succeeds on a group of one, and the counter stays at [5]
    with nothing printed. *)
Lemma stacked_query_zero_total_no_progress :
  let group := [IdInt 7] in
  let total := Some 0 in
  Template.substitute (Template.Template "AU-ID($fill)")
    (Str.join ") OR AU-ID(" (str <$> group)) = Ret "AU-ID(7)" /\
  call Demo.answers_all "AU-ID(7)" false Demo.fresh
  = (Ret (Some ["AU-ID(7)"]), World tt {[ 0%nat := [] ]} [] 1) /\
  total <> None /\
  stacked_query group (VList 0%nat) (Template.Template "AU-ID($fill)")
    ") OR AU-ID(" Demo.answers_all false 5 total Demo.fresh
  = Some (Ret (VList 0%nat, 5), World tt {[ 0%nat := ["AU-ID(7)"] ]} [] 1) /\
  5 <> 5 + Z.of_nat (length group).
Proof.
  intros group total.
  repeat split; try (vm_compute; reflexivity); [done | simpl; lia].
Qed.


(** ** [query] *)

Section QueryProperties.

Context {W : Type}.
Variable AuthorSearch :
  string -> bool -> W -> outcome (option (list author)) * W.
Variable ScopusSearch :
  string -> bool -> W -> outcome (option (list document)) * W.

(** The recursive equation of the source. *)
Lemma query_unfold q_type q refresh first_try w :
  query AuthorSearch ScopusSearch q_type q refresh first_try w
  = query_step AuthorSearch ScopusSearch (query AuthorSearch ScopusSearch)
      q_type q refresh first_try w.
Proof.
  unfold query. unfold query_step at 1 3.
  destruct (query_try _ _ _ _ _ _) as [[res|e] w']; [done|].
  destruct (decode_class e); [|done]. by destruct first_try.
Qed.

(** A document whose date does not start with a year makes the check of
    the years raise [ValueError]. *)
Lemma check_years_bad (res : list document) (pub : document) :
  pub ∈ res ->
  PyInt.int (Str.take 4 (coverDate pub)) = Raise ValueError ->
  check_years res = Raise ValueError.
Proof.
  intros Hin Hbad. induction res as [|d res IH]; [by apply elem_of_nil in Hin|].
  cbn [check_years]. apply elem_of_cons in Hin as [<-|Hin].
  - by rewrite Hbad.
  - destruct (PyInt.int (Str.take 4 (coverDate d))) as [y|e] eqn:Hd;
      [by apply IH|].
    unfold PyInt.int in Hd.
    destruct (PyInt.signed _); by simplify_eq.
Qed.

(** So a "docs" search whose results hold such a document fails in the
    decode class. *)
Lemma query_try_bad_year q refresh w res w' pub :
  ScopusSearch q refresh w = (Ret (Some res), w') ->
  pub ∈ res ->
  PyInt.int (Str.take 4 (coverDate pub)) = Raise ValueError ->
  query_try AuthorSearch ScopusSearch "docs" q refresh w
  = (Raise ValueError, w').
Proof.
  intros Hsearch Hin Hbad. unfold query_try. simpl.
  rewrite Hsearch. by rewrite (check_years_bad res pub).
Qed.

(** C7. A [q_type] other than ["author"] and ["docs"] raises at once,
    whatever [refresh] and [first_try] are: no search is sent, and the
    exception is not one that the handler retries. *)
Theorem query_unknown_type_raises q_type q refresh first_try w :
  q_type <> "author" ->
  q_type <> "docs" ->
  query AuthorSearch ScopusSearch q_type q refresh first_try w
  = (Raise (Exception "Unknown value provided."), w).
Proof.
  intros Hauthor Hdocs.
  rewrite query_unfold. unfold query_step, query_try.
  apply String.eqb_neq in Hauthor, Hdocs.
  by rewrite Hauthor, Hdocs.
Qed.

End QueryProperties.

(** C5, on a run the code can meet: both tries of an author search
    fail with [KeyError]. The second failure is not surfaced: the handler
    falls through [pass], and [query] returns [None], where its docstring
    promises a list and says that with [first_try=False] the error ends
    the query. *)
Theorem query_swallows_second_decode_error :
  query_try Demo.undecodable_authors Demo.dated_documents
    "author" "AUTHLAST(x)" false 0%nat
  = (Raise (KeyError "search-results"), 1%nat) /\
  query_try Demo.undecodable_authors Demo.dated_documents
    "author" "AUTHLAST(x)" true 1%nat
  = (Raise (KeyError "search-results"), 2%nat) /\
  decode_class (KeyError "search-results") = true /\
  query Demo.undecodable_authors Demo.dated_documents
    "author" "AUTHLAST(x)" false true 0%nat
  = (Ret None, 2%nat) /\
  ~ exists e w,
      query Demo.undecodable_authors Demo.dated_documents
        "author" "AUTHLAST(x)" false true 0%nat = (Raise e, w).
Proof.
  repeat split; try reflexivity. intros (e & w & Hq). discriminate Hq.
Qed.

Lemma query_unknown_type_raises_witness :
  query Demo.undecodable_authors Demo.dated_documents
    "journal" "SOURCE-ID(1)" false true 0%nat
  = (Raise (Exception "Unknown value provided."), 0%nat).
Proof.
  apply (query_unknown_type_raises Demo.undecodable_authors
           Demo.dated_documents "journal" "SOURCE-ID(1)" false true 0%nat);
    discriminate.
Defined.

(** ** [create_cache] *)

Section CreateCacheProperties.

Variable CACHE_TABLES : list (string * variables).
Variable config_file_path : string.

Lemma create_table_lookup_ne drop (db : gmap string Sql.table) table vars name :
  name <> table ->
  create_table drop db (table, vars) !! name = db !! name.
Proof.
  intros Hne. unfold create_table, Sql.execute.
  destruct drop.
  - rewrite lookup_delete_eq, lookup_insert_ne, lookup_delete_ne; done.
  - destruct (db !! table); [done|]. by rewrite lookup_insert_ne.
Qed.

Lemma create_table_lookup_eq drop (db : gmap string Sql.table) table vars :
  create_table drop db (table, vars) !! table
  = Some (if drop then empty_table vars
          else default (empty_table vars) (db !! table)).
Proof.
  unfold create_table, Sql.execute.
  destruct drop.
  - by rewrite lookup_delete_eq, lookup_insert_eq.
  - destruct (db !! table) eqn:Hdb; [done|]. by rewrite lookup_insert_eq.
Qed.

(** Tables that [CACHE_TABLES] does not name are left alone. *)
Lemma create_tables_other drop (items : list (string * variables))
    (db : gmap string Sql.table) name :
  name ∉ items.*1 ->
  foldl (create_table drop) db items !! name = db !! name.
Proof.
  revert db. induction items as [|[table vars] items IH]; intros db Hout;
    [done|].
  rewrite fmap_cons in Hout. apply not_elem_of_cons in Hout as [Hne Hout].
  cbn [foldl fst] in *.
  rewrite IH by done. by apply create_table_lookup_ne.
Qed.

(** Tables that it names, once each. *)
Lemma create_tables_named drop (items : list (string * variables))
    (db : gmap string Sql.table) name vars :
  NoDup items.*1 ->
  (name, vars) ∈ items ->
  foldl (create_table drop) db items !! name
  = Some (if drop then empty_table vars
          else default (empty_table vars) (db !! name)).
Proof.
  revert db. induction items as [|[table vars'] items IH]; intros db Hnd Hin;
    [by apply elem_of_nil in Hin|].
  rewrite fmap_cons in Hnd. apply NoDup_cons in Hnd as [Hfresh Hnd].
  cbn [foldl fst] in *.
  apply elem_of_cons in Hin as [[= -> ->]|Hin].
  - rewrite create_tables_other by done. apply create_table_lookup_eq.
  - assert (name <> table) as Hne.
    { intros ->. apply Hfresh. apply list_elem_of_fmap. by exists (table, vars). }
    rewrite IH by done. by rewrite create_table_lookup_ne.
Qed.

Lemma drop_all_lookup (db : gmap string Sql.table) name :
  drop_all CACHE_TABLES db !! name
  = if decide (name ∈ CACHE_TABLES.*1) then None else db !! name.
Proof.
  unfold drop_all. revert db.
  induction CACHE_TABLES as [|[table vars] items IH]; intros db; [done|].
  cbn [foldl fst]. rewrite IH, fmap_cons. cbn [fst].
  destruct (decide (name ∈ items.*1)) as [Hin|Hout];
    destruct (decide (name ∈ table :: items.*1)) as [Hin'|Hout'];
    try done.
  - exfalso. apply Hout', elem_of_cons. by right.
  - apply elem_of_cons in Hin' as [->|?]; [|done]. apply lookup_delete_eq.
  - apply not_elem_of_cons in Hout' as [Hne _]. by apply lookup_delete_ne.
Qed.

Lemma named_or_other name :
  (exists vars, (name, vars) ∈ CACHE_TABLES) \/ name ∉ CACHE_TABLES.*1.
Proof.
  destruct (decide (name ∈ CACHE_TABLES.*1)) as [Hin|Hout]; [left|by right].
  apply list_elem_of_fmap in Hin as ([table vars] & -> & Hin). eauto.
Qed.

Lemma create_tables_idempotent drop (db : gmap string Sql.table) :
  NoDup CACHE_TABLES.*1 ->
  create_tables CACHE_TABLES drop (create_tables CACHE_TABLES drop db)
  = create_tables CACHE_TABLES drop db.
Proof.
  intros Hnd. apply map_eq. intros name. unfold create_tables.
  destruct (named_or_other name) as [[vars Hin]|Hout].
  - rewrite !(create_tables_named drop _ _ name vars) by done.
    by destruct drop.
  - by rewrite !create_tables_other.
Qed.

Lemma create_tables_drop_then_create (db : gmap string Sql.table) :
  NoDup CACHE_TABLES.*1 ->
  create_tables CACHE_TABLES true db = drop_then_create CACHE_TABLES db.
Proof.
  intros Hnd. apply map_eq. intros name.
  unfold create_tables, drop_then_create, create_all.
  destruct (named_or_other name) as [[vars Hin]|Hout].
  - rewrite !(create_tables_named _ _ _ name vars) by done.
    rewrite drop_all_lookup, decide_True; [done|].
    apply list_elem_of_fmap. by exists (name, vars).
  - rewrite !create_tables_other by done.
    by rewrite drop_all_lookup, decide_False.
Qed.

Lemma create_cache_twice drop file
    (fs : gmap string (gmap string Sql.table)) :
  NoDup CACHE_TABLES.*1 ->
  create_cache CACHE_TABLES config_file_path drop file
    (create_cache CACHE_TABLES config_file_path drop file fs)
  = create_cache CACHE_TABLES config_file_path drop file fs.
Proof.
  intros Hnd. unfold create_cache.
  rewrite lookup_insert_eq, insert_insert_eq. simpl.
  by rewrite create_tables_idempotent.
Qed.

(** C8. [create_cache] can be called again at will: a second call changes
    nothing, in either mode. With [drop=False] a table that exists keeps
    its declaration and its rows, and a missing one is created empty.
    With [drop=True] the result is that of dropping every table of
    [CACHE_TABLES] and then creating them all, so each is there and
    empty. Tables that [CACHE_TABLES] does not name are never touched. *)
Theorem create_cache_safe_to_repeat file
    (fs : gmap string (gmap string Sql.table)) :
  NoDup CACHE_TABLES.*1 ->
  let path := cache_file config_file_path file in
  let db := default ∅ (fs !! path) in
  (forall drop,
     create_cache CACHE_TABLES config_file_path drop file
       (create_cache CACHE_TABLES config_file_path drop file fs)
     = create_cache CACHE_TABLES config_file_path drop file fs) /\
  (forall drop,
     create_cache CACHE_TABLES config_file_path drop file fs !! path
     = Some (create_tables CACHE_TABLES drop db)) /\
  (forall name tb,
     db !! name = Some tb ->
     create_tables CACHE_TABLES false db !! name = Some tb) /\
  (forall name vars,
     (name, vars) ∈ CACHE_TABLES -> db !! name = None ->
     create_tables CACHE_TABLES false db !! name = Some (empty_table vars)) /\
  create_tables CACHE_TABLES true db = drop_then_create CACHE_TABLES db /\
  (forall name vars,
     (name, vars) ∈ CACHE_TABLES ->
     create_tables CACHE_TABLES true db !! name = Some (empty_table vars)) /\
  (forall drop name,
     name ∉ CACHE_TABLES.*1 ->
     create_tables CACHE_TABLES drop db !! name = db !! name).
Proof.
  intros Hnd path db. repeat split.
  - intros drop. by apply create_cache_twice.
  - intros drop. unfold create_cache. apply lookup_insert_eq.
  - intros name tb Hdb. unfold create_tables.
    destruct (named_or_other name) as [[vars Hin]|Hout].
    + rewrite (create_tables_named false _ _ name vars) by done.
      by rewrite Hdb.
    + by rewrite create_tables_other.
  - intros name vars Hin Hdb. unfold create_tables.
    rewrite (create_tables_named false _ _ name vars) by done.
    by rewrite Hdb.
  - by apply create_tables_drop_then_create.
  - intros name vars Hin. unfold create_tables.
    by rewrite (create_tables_named true _ _ name vars).
  - intros drop name Hout. by apply create_tables_other.
Qed.

End CreateCacheProperties.

Lemma create_cache_safe_to_repeat_witness :
  NoDup Demo.cache_tables.*1 /\
  create_cache Demo.cache_tables "default.sqlite" false
    (Some "cache.sqlite")
    (create_cache Demo.cache_tables "default.sqlite" false
       (Some "cache.sqlite") Demo.used_cache)
  = create_cache Demo.cache_tables "default.sqlite" false
      (Some "cache.sqlite") Demo.used_cache /\
  create_tables Demo.cache_tables true
    (default ∅ (Demo.used_cache !! "cache.sqlite"))
  = drop_then_create Demo.cache_tables
      (default ∅ (Demo.used_cache !! "cache.sqlite")).
Proof.
  assert (NoDup Demo.cache_tables.*1) as Hnd.
  { apply (bool_decide_unpack _). vm_compute. exact I. }
  destruct (create_cache_safe_to_repeat Demo.cache_tables
              "default.sqlite" (Some "cache.sqlite") Demo.used_cache Hnd)
    as (Htwice & _ & _ & _ & Hdrop & _).
  split; [exact Hnd|]. split; [exact (Htwice false)|exact Hdrop].
Defined.

(** The author of the used cache survives a call without [drop] and is
    gone after a call with it; the foreign table stays in both. *)
Example create_cache_on_used_cache :
  let run drop :=
    default ∅ (create_cache Demo.cache_tables "default.sqlite" drop
                 (Some "cache.sqlite") Demo.used_cache !! "cache.sqlite") in
  Sql.rows <$> run false !! "authors" = Some [["53164702100"; "Rose"]] /\
  Sql.rows <$> run true !! "authors" = Some [] /\
  Sql.rows <$> run false !! "sources" = Some [] /\
  run true !! "notes" = Some (Sql.Table "body text" "body" [["keep"]]) /\
  Sql.text (Sql.CreateTableIfNotExists "authors"
              "auth_id int, surname text" "auth_id")
  = "CREATE TABLE IF NOT EXISTS authors (auth_id int, surname text, PRIMARY KEY(auth_id))".
Proof. repeat split; vm_compute; reflexivity. Qed.

(** ** The key partitioner *)

Section PartitionerProperties.

Context {K V : Type} `{Countable K}.
Implicit Types (store : gmap K V) (requested keys : list K) (k : K).

Lemma elem_of_dedup keys k : k ∈ Partitioner.dedup keys <-> k ∈ keys.
Proof.
  induction keys as [|k' keys IH]; [done|]. cbn [Partitioner.dedup].
  rewrite !elem_of_cons, list_elem_of_filter, IH.
  destruct (decide (k = k')); tauto.
Qed.

Lemma NoDup_dedup keys : NoDup (Partitioner.dedup keys).
Proof.
  induction keys as [|k' keys IH]; [constructor|]. cbn [Partitioner.dedup].
  apply NoDup_cons. split; [|by apply NoDup_filter].
  rewrite list_elem_of_filter. by intros [Hne _].
Qed.

(** Keys are kept where they are first seen. *)
Lemma dedup_snoc keys k :
  Partitioner.dedup (keys ++ [k])%list
  = if decide (k ∈ keys) then Partitioner.dedup keys
    else (Partitioner.dedup keys ++ [k])%list.
Proof.
  induction keys as [|k' keys IH]; [done|].
  cbn [app Partitioner.dedup]. rewrite IH.
  destruct (decide (k ∈ keys)) as [Hin|Hout].
  - rewrite decide_True; [done|]. apply elem_of_cons. by right.
  - rewrite filter_app.
    destruct (decide (k = k')) as [->|Hne].
    + rewrite decide_True by (apply elem_of_cons; by left).
      rewrite filter_cons_False, filter_nil, app_nil_r; [done|]. by intros [].
    + rewrite decide_False by (by intros [?|?]%elem_of_cons).
      by rewrite filter_cons_True, filter_nil.
Qed.

Lemma lookup_found store keys k :
  k ∈ Partitioner.lookup store keys <-> is_Some (store !! k) /\ k ∈ keys.
Proof.
  unfold Partitioner.lookup.
  apply (list_elem_of_filter (fun k => is_Some (store !! k))).
Qed.

Lemma filter_ext_in {A : Type} (P Q : A -> Prop)
    `{!forall x, Decision (P x), !forall x, Decision (Q x)} (l : list A) :
  (forall x, x ∈ l -> (P x <-> Q x)) -> filter P l = filter Q l.
Proof.
  induction l as [|a l IH]; intros Hext; [done|].
  rewrite !filter_cons.
  rewrite IH by (intros x Hx; apply Hext, elem_of_cons; by right).
  apply decide_ext, Hext, elem_of_cons. by left.
Qed.

(** [tosearch] keeps, in order, the deduplicated keys that the store does
    not hold. *)
Lemma tosearch_filter store requested :
  Partitioner.tosearch store requested
  = filter (fun k => ~ is_Some (store !! k)) (Partitioner.dedup requested).
Proof.
  unfold Partitioner.tosearch. apply filter_ext_in. intros k Hk.
  rewrite lookup_found. tauto.
Qed.

(** The keys of [incache] are, in order, the deduplicated keys that the
    store holds. *)
Lemma incache_keys store requested :
  (Partitioner.incache store requested).*1
  = filter (fun k => is_Some (store !! k)) (Partitioner.dedup requested).
Proof.
  unfold Partitioner.incache, Partitioner.lookup.
  induction (Partitioner.dedup requested) as [|k keys IH]; [done|].
  rewrite filter_cons. destruct (decide (is_Some (store !! k))) as [[v Hv]|];
    [|done].
  cbn [omap list_omap]. rewrite Hv. cbn [fmap option_fmap option_map].
  rewrite fmap_cons. cbn [fst]. f_equal. exact IH.
Qed.

(** The records of [incache] are those of the store. *)
Lemma elem_of_incache store requested k (v : V) :
  (k, v) ∈ Partitioner.incache store requested
  <-> k ∈ requested /\ store !! k = Some v.
Proof.
  unfold Partitioner.incache. rewrite list_elem_of_omap. split.
  - intros (k' & Hin & Hrec).
    apply lookup_found in Hin as [_ Hin].
    apply (proj1 (elem_of_dedup _ _)) in Hin.
    destruct (store !! k') as [v'|] eqn:Hk'; simplify_eq/=. auto.
  - intros [Hin Hk]. exists k. split.
    + apply lookup_found. split; [by rewrite Hk|by apply elem_of_dedup].
    + by rewrite Hk.
Qed.

(** C6. The keys of [incache] together with [tosearch] are the
    deduplicated request, which has the keys of the request, each once;
    no key is in both; [tosearch] follows the order in which the keys are
    first seen: a key added at the end of the request goes to the end of
    [tosearch] if it is new and not cached, and changes nothing
    otherwise. *)
Theorem partition_complete store requested :
  ((Partitioner.incache store requested).*1
     ++ Partitioner.tosearch store requested)%list
    ≡ₚ Partitioner.dedup requested /\
  (forall k, k ∈ Partitioner.dedup requested <-> k ∈ requested) /\
  NoDup (Partitioner.dedup requested) /\
  (forall k,
     k ∈ (Partitioner.incache store requested).*1 ->
     k ∉ Partitioner.tosearch store requested) /\
  NoDup ((Partitioner.incache store requested).*1
           ++ Partitioner.tosearch store requested)%list /\
  Partitioner.tosearch store [] = [] /\
  (forall k,
     Partitioner.tosearch store (requested ++ [k])%list
     = if decide (k ∈ requested) then Partitioner.tosearch store requested
       else if decide (is_Some (store !! k))
            then Partitioner.tosearch store requested
       else (Partitioner.tosearch store requested ++ [k])%list).
Proof.
  assert (((Partitioner.incache store requested).*1
             ++ Partitioner.tosearch store requested)%list
            ≡ₚ Partitioner.dedup requested) as Hperm.
  { rewrite incache_keys, tosearch_filter. apply filter_app_complement. }
  repeat split.
  - exact Hperm.
  - by apply elem_of_dedup.
  - by apply elem_of_dedup.
  - apply NoDup_dedup.
  - intros k. rewrite incache_keys, tosearch_filter, !list_elem_of_filter.
    tauto.
  - rewrite Hperm. apply NoDup_dedup.
  - intros k. rewrite !tosearch_filter, dedup_snoc.
    destruct (decide (k ∈ requested)); [done|].
    rewrite filter_app, filter_cons, filter_nil.
    destruct (decide (is_Some (store !! k))).
    + rewrite decide_False by tauto. by rewrite app_nil_r.
    + by rewrite decide_True.
Qed.

End PartitionerProperties.

(** The run of [test_authors_in_cache]: an empty cache, then two authors
    cached and a third asked for, then the two cached ones alone. *)
Example authors_in_cache_scenario :
  let expected_auth := [53164702100; 57197093438] in
  let search_auth := [55317901900] in
  let empty : gmap Z string := ∅ in
  let filled :=
    Partitioner.cache_insert
      [(53164702100, "Rose"); (57197093438, "Baruffaldi")] empty in
  Partitioner.tosearch empty expected_auth = expected_auth /\
  Partitioner.incache empty expected_auth = [] /\
  Partitioner.tosearch filled (expected_auth ++ search_auth)%list
    = [55317901900] /\
  length (Partitioner.incache filled (expected_auth ++ search_auth)%list)
    = 2%nat /\
  Partitioner.tosearch filled expected_auth = [] /\
  length (Partitioner.incache filled expected_auth) = 2%nat /\
  Partitioner.tosearch filled [55317901900; 53164702100; 55317901900]
    = [55317901900].
Proof. repeat split; vm_compute; reflexivity. Qed.

(** * Further properties *)

(** ** More on [stacked_query] *)

Section StackedQueryFurther.

Context {W R : Type}.
Implicit Types (w : world W R) (func : @adapter W R) (group : list ident).

Lemma str_of_strings (strs : list string) : str <$> (IdStr <$> strs) = strs.
Proof. induction strs as [|s strs IH]; [done|]. by rewrite !fmap_cons, IH. Qed.

Lemma stacked_query_rec_S fuel group res query joiner func refresh i
    total w :
  stacked_query_rec (S fuel) group res query joiner func refresh i total w
  = stacked_query_step (stacked_query_rec fuel) group res query joiner func
      refresh i total w.
Proof. reflexivity. Qed.

(** X1. Identifiers given as integers and identifiers given as their
    decimal strings are treated alike: the group is made of strings
    before anything else is done with it. *)
Theorem stacked_query_int_or_str group res query joiner func refresh i
    total w :
  stacked_query group res query joiner func refresh i total w
  = stacked_query (IdStr <$> (str <$> group)) res query joiner func refresh
      i total w.
Proof.
  unfold stacked_query, budget. rewrite !length_fmap.
  change (7 + length group)%nat with (S (6 + length group)).
  rewrite !stacked_query_rec_S. unfold stacked_query_step.
  rewrite str_of_strings. reflexivity.
Qed.

(** The lists of the heap after a run of the bounded recursion: the
    list that was passed in has grown at its end, the others are as they
    were. This holds for runs that return and for runs that raise. *)
Lemma stacked_query_rec_heap fuel :
  forall group l query joiner func refresh i total w r w',
    stacked_query_rec fuel group (VList l) query joiner func refresh i
      total w = Some (r, w') ->
    (exists added,
       default [] (heap w' !! l)
       = (default [] (heap w !! l) ++ added)%list) /\
    (forall l', l' <> l -> heap w' !! l' = heap w !! l').
Proof.
  induction fuel as [|fuel IH];
    intros group l query joiner func refresh i total w r w' Hrun; [done|].
  rewrite stacked_query_rec_S in Hrun. unfold stacked_query_step in Hrun.
  assert (forall w0 : world W R,
            (exists added,
               default [] (heap w0 !! l)
               = (default [] (heap w0 !! l) ++ added)%list) /\
            (forall l', l' <> l -> heap w0 !! l' = heap w0 !! l')) as Hrefl.
  { intros w0. split; [exists []; by rewrite app_nil_r|done]. }
  assert (forall (m : option (outcome (value * Z) * world W R)) w1 i1 q1 g1 g2
                 (t : option Z) (j : string),
            heap w1 = heap w ->
            m = bind (stacked_query_rec fuel g1 (VList l) q1 j func
                        refresh i1 t w1)
                  (fun '(_, i2) w2 =>
                bind (stacked_query_rec fuel g2 (VList l) q1 j func
                        refresh i2 t w2)
                  (fun '(res, i3) w3 => Some (Ret (res, i3), w3))) ->
            m = Some (r, w') ->
            (exists added,
               default [] (heap w' !! l)
               = (default [] (heap w !! l) ++ added)%list) /\
            (forall l', l' <> l -> heap w' !! l' = heap w !! l')) as Hseq.
  { intros m w1 i1 q1 g1 g2 t j Hw1 -> Hm. rewrite <- Hw1.
    destruct (stacked_query_rec fuel g1 _ _ _ _ _ _ _ w1)
      as [[[[v1 i2]|e1] w2]|] eqn:Hfirst; [| |done].
    - rewrite bind_ret in Hm. cbv beta iota in Hm.
      apply IH in Hfirst as [[add1 Hadd1] Hoth1].
      destruct (stacked_query_rec fuel g2 _ _ _ _ _ _ _ w2)
        as [[[[v2 i3]|e2] w3]|] eqn:Hsecond; [| |done].
      + rewrite bind_ret in Hm. injection Hm as <- <-.
        apply IH in Hsecond as [[add2 Hadd2] Hoth2]. split.
        * exists (add1 ++ add2)%list. by rewrite Hadd2, Hadd1, app_assoc.
        * intros l' Hl'. by rewrite Hoth2, Hoth1.
      + rewrite bind_raise in Hm. injection Hm as <- <-.
        apply IH in Hsecond as [[add2 Hadd2] Hoth2]. split.
        * exists (add1 ++ add2)%list. by rewrite Hadd2, Hadd1, app_assoc.
        * intros l' Hl'. by rewrite Hoth2, Hoth1.
    - rewrite bind_raise in Hm. injection Hm as <- <-.
      by apply IH in Hfirst. }
  destruct (Template.substitute _ _) as [q|?];
    [|injection Hrun as <- <-; apply Hrefl].
  destruct (call func q refresh w) as [[[rows|]|e] w1] eqn:Hcall;
    apply call_calls in Hcall as (_ & Hheap & _).
  - destruct (truthy total); injection Hrun as <- <-;
      unfold print_progress, extend; simpl; rewrite Hheap;
      (split; [exists rows; by rewrite lookup_insert_eq
              |intros l' Hl'; by apply lookup_insert_ne]).
  - injection Hrun as <- <-. rewrite Hheap. apply Hrefl.
  - destruct (split_class e);
      [|injection Hrun as <- <-; rewrite Hheap; apply Hrefl].
    destruct (1 <? _)%nat; [|destruct (negb _)].
    + eapply Hseq; [exact Hheap|reflexivity|exact Hrun].
    + eapply Hseq; [exact Hheap|reflexivity|exact Hrun].
    + injection Hrun as <- <-. rewrite Hheap. apply Hrefl.
Qed.

(** X2. Whatever a run of [stacked_query] does, return or raise, the
    list it was given only grows at its end, and no other list of the
    heap is touched. *)
Theorem stacked_query_accumulator_grows group l query joiner func refresh i
    total w r w' :
  stacked_query group (VList l) query joiner func refresh i total w
    = Some (r, w') ->
  (exists added,
     default [] (heap w' !! l) = (default [] (heap w !! l) ++ added)%list) /\
  (forall l', l' <> l -> heap w' !! l' = heap w !! l').
Proof. apply stacked_query_rec_heap. Qed.

(** X3. The value handed back by [stacked_query] is the very object
    that was passed as [res], or [None]; never another list. *)
Theorem stacked_query_returns_res_or_None group res query joiner func
    refresh i total w res' i' w' :
  stacked_query group res query joiner func refresh i total w
    = Some (Ret (res', i'), w') ->
  res' = res \/ res' = VNone.
Proof. apply stacked_query_rec_value. Qed.

(** How far the counter can go, and what is printed on the way. *)
Lemma stacked_query_rec_progress fuel :
  forall group res query joiner func refresh i total w res' i' w',
    stacked_query_rec fuel group res query joiner func refresh i total w
      = Some (Ret (res', i'), w') ->
    i <= i' <= i + Z.of_nat (length group) /\
    exists new,
      progress w' = (progress w ++ new)%list /\
      Forall (fun entry => entry.2 = total /\ i <= entry.1 <= i') new.
Proof.
  induction fuel as [|fuel IH];
    intros group res query joiner func refresh i total w res' i' w' Hrun;
    [done|].
  rewrite stacked_query_rec_S in Hrun. unfold stacked_query_step in Hrun.
  destruct (Template.substitute _ _) as [q|?]; [|done].
  destruct res as [|l]; [done|].
  destruct (call func q refresh w) as [[[rows|]|e] w1] eqn:Hcall;
    apply call_calls in Hcall as (_ & _ & Hp); [|done|].
  - rewrite length_fmap in Hrun.
    destruct (truthy total) eqn:Ht; injection Hrun as <- <- <-.
    + split; [lia|]. eexists [_]. simpl. rewrite Hp. split; [done|].
      apply Forall_singleton. simpl. split; [done|lia].
    + split; [lia|]. exists []. simpl. rewrite Hp, app_nil_r. done.
  - destruct (split_class e); [|done].
    destruct (1 <? _)%nat; [|destruct (negb _)].
    + apply bind_returns in Hrun as ([v1 i1] & w2 & Hfirst & Hrun).
      apply bind_returns in Hrun as ([v2 i2] & w3 & Hsecond & Hrun).
      injection Hrun as <- <- <-.
      apply IH in Hfirst as (Hi1 & new1 & Hp1 & Hall1).
      apply IH in Hsecond as (Hi2 & new2 & Hp2 & Hall2).
      rewrite length_fmap in Hi1, Hi2.
      rewrite length_take in Hi1. rewrite length_drop in Hi2.
      rewrite length_fmap in Hi1, Hi2.
      split; [lia|]. exists (new1 ++ new2)%list.
      rewrite Hp2, Hp1, Hp, app_assoc. split; [done|].
      apply Forall_app. split.
      * eapply Forall_impl; [exact Hall1|]. simpl. intros ? [? ?].
        split; [done|lia].
      * eapply Forall_impl; [exact Hall2|]. simpl. intros ? [? ?].
        split; [done|lia].
    + apply bind_returns in Hrun as ([v1 i1] & w2 & Hfirst & Hrun).
      apply bind_returns in Hrun as ([v2 i2] & w3 & Hsecond & Hrun).
      injection Hrun as <- <- <-.
      apply stacked_query_rec_counter in Hfirst
        as (new1 & Hp1 & _ & Hnil1 & Hf1).
      apply stacked_query_rec_counter in Hsecond
        as (new2 & Hp2 & _ & Hnil2 & Hf2).
      specialize (Hf1 eq_refl). specialize (Hf2 eq_refl). subst new1 new2.
      rewrite (Hnil2 eq_refl), (Hnil1 eq_refl).
      split; [lia|]. exists [].
      rewrite Hp2, Hp1, Hp, !app_nil_r. done.
    + injection Hrun as <- <- <-. split; [lia|]. exists [].
      rewrite Hp, app_nil_r. done.
Qed.

(** X4. The counter that [stacked_query] returns is at most the counter
    it was given plus the size of the group, and every progress line it
    prints shows the [total] it was given and a count within these
    bounds. *)
Theorem stacked_query_progress_bounded group res query joiner func refresh
    i total w res' i' w' :
  stacked_query group res query joiner func refresh i total w
    = Some (Ret (res', i'), w') ->
  i' <= i + Z.of_nat (length group) /\
  exists new,
    progress w' = (progress w ++ new)%list /\
    Forall (fun entry =>
              entry.2 = total /\
              i <= entry.1 <= i + Z.of_nat (length group)) new.
Proof.
  intros Hrun. apply stacked_query_rec_progress in Hrun
    as (Hi & new & Hp & Hall).
  split; [lia|]. exists new. split; [exact Hp|].
  eapply Forall_impl; [exact Hall|]. simpl. intros ? [? ?].
  split; [done|lia].
Qed.

(** When every query on one identifier is answered, splitting reaches
    all of them. The run is followed through the observer: every search
    on record is the caller's template filled with a run of neighbours
    of the group, and the refused ones were for more than one
    identifier. *)
Lemma stacked_query_rec_resolves fuel :
  forall group l query joiner func refresh i total
         (wr : world (W * list (string * bool)) R),
    (forall fill, exists q, Template.substitute query fill = Ret q) ->
    (forall q w0,
       (exists rows w1, call func q refresh w0 = (Ret (Some rows), w1)) \/
       (exists e w1,
          call func q refresh w0 = (Raise e, w1) /\ split_class e = true)) ->
    (forall g q w0,
       g ∈ group -> Template.substitute query (str g) = Ret q ->
       exists rows w1, call func q refresh w0 = (Ret (Some rows), w1)) ->
    group <> [] ->
    (length group < fuel)%nat ->
    exists sent wr',
      stacked_query_rec fuel group (VList l) query joiner (recorded func)
        refresh i total wr
      = Some (Ret (VList l,
                   if truthy total then i + Z.of_nat (length group) else i),
              wr') /\
      record wr' = (record wr ++ sent)%list /\
      (length sent + 1 <= 2 * length group)%nat /\
      Forall (fun entry =>
                exists before part after,
                  str <$> group = (before ++ part ++ after)%list /\
                  part <> [] /\
                  Template.substitute query (Str.join joiner part)
                  = Ret entry.1 /\
                  (entry.2 = false -> (1 < length part)%nat)) sent.
Proof.
  induction fuel as [|fuel IH];
    intros group l query joiner func refresh i total wr Htpl Hfunc Hone
      Hne Hfuel; [lia|].
  cbn [stacked_query_rec]. unfold stacked_query_step.
  assert (0 < length group)%nat as Hpos by (destruct group; [done|simpl; lia]).
  assert (str <$> group <> []) as Hstrs by (by destruct group).
  destruct (Htpl (Str.join joiner (str <$> group))) as [q Hq]. rewrite Hq.
  rewrite call_recorded.
  destruct (Hfunc q (without_record wr))
    as [(rows & w1 & Hcall)|(e & w1 & Hcall & He)];
    rewrite Hcall; cbn [fst snd answered].
  { rewrite length_fmap. exists [(q, true)].
    destruct (truthy total); eexists; (split; [reflexivity|]);
      (split; [done|]); (split; [simpl; lia|]);
      apply Forall_singleton; exists [], (str <$> group), [];
      rewrite app_nil_r; done. }
  rewrite He.
  destruct (1 <? _)%nat eqn:Hlen.
  - apply Nat.ltb_lt in Hlen.
    destruct (halves_lengths _ Hlen) as (H1 & H2 & Hsum).
    pose proof (length_fmap str group) as Hg.
    assert (forall k g,
              g ∈ IdStr <$> take k (str <$> group) \/
              g ∈ IdStr <$> drop k (str <$> group) ->
              exists g0, g0 ∈ group /\ str g = str g0) as Hsub.
    { intros k g Hin.
      assert (g ∈ IdStr <$> (str <$> group)) as Hg0.
      { rewrite <- (take_drop k (str <$> group)), fmap_app.
        apply elem_of_app. exact Hin. }
      apply list_elem_of_fmap in Hg0 as (s & -> & Hs).
      apply list_elem_of_fmap in Hs as (g0 & -> & Hg0). eauto. }
    edestruct (IH (IdStr <$> take (length (str <$> group) / 2) (str <$> group))
                 l query joiner func refresh i total
                 (with_record (record wr ++ [(q, false)]) w1))
      as (sent1 & wr2 & -> & Hr1 & Hc1 & Hall1);
      [done|done| |intros Hnil; rewrite Hnil in H1; simpl in H1; lia|lia|].
    { intros g q0 w0 Hin Hq0.
      destruct (Hsub _ g (or_introl Hin)) as (g0 & Hg0 & Hstr).
      rewrite Hstr in Hq0. eauto. }
    rewrite bind_ret. cbv beta iota.
    edestruct (IH (IdStr <$> drop (length (str <$> group) / 2) (str <$> group))
                 l query joiner func refresh
                 (if truthy total
                  then i + Z.of_nat
                             (length (IdStr <$> take
                                        (length (str <$> group) / 2)
                                        (str <$> group)))
                  else i) total wr2)
      as (sent2 & wr3 & -> & Hr2 & Hc2 & Hall2);
      [done|done| |intros Hnil; rewrite Hnil in H2; simpl in H2; lia|lia|].
    { intros g q0 w0 Hin Hq0.
      destruct (Hsub _ g (or_intror Hin)) as (g0 & Hg0 & Hstr).
      rewrite Hstr in Hq0. eauto. }
    rewrite bind_ret. exists ((q, false) :: sent1 ++ sent2)%list, wr3.
    rewrite str_of_strings in Hall1, Hall2.
    unfold record in *. simpl in Hr1.
    split; [|split; [|split]].
    + do 3 f_equal. destruct (truthy total); f_equal; lia.
    + rewrite Hr2, Hr1. by rewrite <- !app_assoc.
    + simpl. rewrite length_app. lia.
    + apply Forall_cons. split.
      { exists [], (str <$> group), []. rewrite app_nil_r.
        repeat split; [done|exact Hq|intros _; lia]. }
      apply Forall_app. split.
      * eapply Forall_impl; [exact Hall1|].
        intros entry (before & part & after & Hparts & Hpart).
        exists before, part,
          (after ++ drop (length (str <$> group) / 2) (str <$> group))%list.
        split; [|exact Hpart].
        rewrite <- (take_drop (length (str <$> group) / 2) (str <$> group))
          at 1.
        rewrite Hparts. by rewrite <- !app_assoc.
      * eapply Forall_impl; [exact Hall2|].
        intros entry (before & part & after & Hparts & Hpart).
        exists (take (length (str <$> group) / 2) (str <$> group) ++ before)%list,
          part, after.
        split; [|exact Hpart].
        rewrite <- (take_drop (length (str <$> group) / 2) (str <$> group))
          at 1.
        rewrite Hparts. by rewrite <- !app_assoc.
  - apply Nat.ltb_ge in Hlen. rewrite length_fmap in Hlen.
    destruct group as [|g [|g' group]]; [done| |simpl in Hlen; lia].
    exfalso. destruct (Hone g q (without_record wr)) as (rows & w1' & Hans);
      [by apply list_elem_of_singleton|exact Hq|].
    rewrite Hans in Hcall. discriminate Hcall.
Qed.

(** X5. If the template accepts every filling, the search either
    answers or fails with one of the three caught errors, and every
    query on a single identifier of the group is answered, then
    [stacked_query] on a group that is not empty returns the list it
    was given, never [None]; the counter has advanced by the size of the
    whole group when [total] is truthy; and fewer than
    [2 * len(group)] searches were sent. With the searches on record:
    each one is the caller's template filled with a run of neighbours of
    the group, and each refused one was for more than one identifier, so
    the fallback on [EID] was not entered. *)
Theorem stacked_query_resolves_all group l query joiner func refresh i
    total w :
  (forall fill, exists q, Template.substitute query fill = Ret q) ->
  (forall q w0,
     (exists rows w1, call func q refresh w0 = (Ret (Some rows), w1)) \/
     (exists e w1,
        call func q refresh w0 = (Raise e, w1) /\ split_class e = true)) ->
  (forall g q w0,
     g ∈ group -> Template.substitute query (str g) = Ret q ->
     exists rows w1, call func q refresh w0 = (Ret (Some rows), w1)) ->
  group <> [] ->
  exists w' sent,
    stacked_query group (VList l) query joiner func refresh i total w
    = Some (Ret (VList l,
                 if truthy total then i + Z.of_nat (length group) else i),
            w') /\
    stacked_query group (VList l) query joiner (recorded func) refresh i
      total (with_record [] w)
    = Some (Ret (VList l,
                 if truthy total then i + Z.of_nat (length group) else i),
            with_record sent w') /\
    length sent = (calls w' - calls w)%nat /\
    (calls w' - calls w < 2 * length group)%nat /\
    Forall (fun entry =>
              exists before part after,
                str <$> group = (before ++ part ++ after)%list /\
                part <> [] /\
                Template.substitute query (Str.join joiner part)
                = Ret entry.1 /\
                (entry.2 = false -> (1 < length part)%nat)) sent.
Proof.
  intros Htpl Hfunc Hone Hne.
  destruct (stacked_query_rec_resolves (budget group) group l query joiner
              func refresh i total (with_record [] w) Htpl Hfunc Hone Hne)
    as (sent & wr' & Hrec & Hsent & Hlen & Hall).
  { unfold budget. lia. }
  unfold record in Hsent. simpl in Hsent.
  exists (without_record wr'), sent.
  pose proof (stacked_query_rec_forget (budget group) group (VList l) query
                joiner func refresh i total (with_record [] w)) as Hsim.
  rewrite Hrec, without_with_record in Hsim. cbn [forget] in Hsim.
  assert (wr' = with_record sent (without_record wr')) as Hwr.
  { rewrite <- Hsent. symmetry. apply with_without_record. }
  destruct (stacked_query_rec_answers _ _ _ _ _ _ _ _ _ _ _ _ _ Hrec)
    as (sent' & Hsent' & Hcalls & _).
  unfold record in Hsent'. simpl in Hsent', Hcalls.
  assert (sent' = sent) as -> by congruence.
  unfold stacked_query. rewrite <- Hsim, Hrec.
  split; [done|]. split; [by rewrite <- Hwr|].
  simpl. split; [lia|]. split; [lia|exact Hall].
Qed.

End StackedQueryFurther.

Lemma stacked_query_accumulator_grows_witness :
  (exists added,
     default [] (heap (World tt {[ 0%nat := ["AU-ID(1)"] ]} [] 21
                       : world unit string) !! 0%nat)
     = (default [] (heap Demo.fresh !! 0%nat) ++ added)%list) /\
  (forall l', l' <> 0%nat ->
     heap (World tt {[ 0%nat := ["AU-ID(1)"] ]} [] 21 : world unit string)
       !! l'
     = heap Demo.fresh !! l').
Proof.
  apply (stacked_query_accumulator_grows [IdInt 1; IdInt 2] 0%nat
           (Template.Template "AU-ID($fill)") ") OR AU-ID("
           (Demo.answers_only "AU-ID(1)") false 0 None Demo.fresh
           (Ret (VNone, 0))).
  vm_compute. reflexivity.
Defined.

Lemma stacked_query_returns_res_or_None_witness :
  VNone = VList 0%nat \/ VNone = VNone.
Proof.
  apply (stacked_query_returns_res_or_None [IdInt 1; IdInt 2] (VList 0%nat)
           (Template.Template "AU-ID($fill)") ") OR AU-ID("
           (Demo.answers_only "AU-ID(1)") false 0 None Demo.fresh VNone 0
           (World tt {[ 0%nat := ["AU-ID(1)"] ]} [] 21)).
  vm_compute. reflexivity.
Defined.

Lemma stacked_query_progress_bounded_witness :
  7 <= 5 + Z.of_nat (length [IdInt 7; IdStr "8"]) /\
  exists new,
    progress (World tt {[ 0%nat := ["AU-ID(7) OR AU-ID(8)"] ]}
                [(7, Some 2)] 1 : world unit string)
    = (progress Demo.fresh ++ new)%list /\
    Forall (fun entry =>
              entry.2 = Some 2 /\
              5 <= entry.1 <= 5 + Z.of_nat (length [IdInt 7; IdStr "8"]))
      new.
Proof.
  apply (stacked_query_progress_bounded [IdInt 7; IdStr "8"] (VList 0%nat)
           (Template.Template "AU-ID($fill)") ") OR AU-ID("
           Demo.answers_all false 5 (Some 2) Demo.fresh (VList 0%nat)).
  vm_compute. reflexivity.
Defined.

Lemma stacked_query_resolves_all_witness :
  let group := [IdInt 1; IdInt 2; IdInt 3] in
  let query := Template.Template "AU-ID($fill)" in
  exists w' sent,
    stacked_query group (VList 0%nat) query " OR " Cases.answers_singles
      false 0 (Some 3) Demo.fresh
    = Some (Ret (VList 0%nat,
                 if truthy (Some 3) then 0 + Z.of_nat (length group) else 0),
            w') /\
    stacked_query group (VList 0%nat) query " OR "
      (recorded Cases.answers_singles) false 0 (Some 3)
      (with_record [] Demo.fresh)
    = Some (Ret (VList 0%nat,
                 if truthy (Some 3) then 0 + Z.of_nat (length group) else 0),
            with_record sent w') /\
    length sent = (calls w' - calls Demo.fresh)%nat /\
    (calls w' - calls Demo.fresh < 2 * length group)%nat /\
    Forall (fun entry =>
              exists before part after,
                str <$> group = (before ++ part ++ after)%list /\
                part <> [] /\
                Template.substitute query (Str.join " OR " part)
                = Ret entry.1 /\
                (entry.2 = false -> (1 < length part)%nat)) sent.
Proof.
  intros group query.
  apply (stacked_query_resolves_all group 0%nat query " OR "
           Cases.answers_singles false 0 (Some 3) Demo.fresh).
  - intros fill. eexists. reflexivity.
  - intros q w0. unfold call, run, Cases.answers_singles.
    destruct (Str.contains " OR " q); [right|left]; eauto.
  - intros g q w0 Hin Hq.
    apply elem_of_cons in Hin as [->|Hin];
      [|apply elem_of_cons in Hin as [->|Hin];
        [|apply elem_of_cons in Hin as [->|Hin];
          [|by apply elem_of_nil in Hin]]];
      vm_compute in Hq; injection Hq as <-; eexists _, _; reflexivity.
  - discriminate.
Defined.

(** ** More on [query] *)

Section QueryFurther.

Context {W : Type}.
Variable AuthorSearch :
  string -> bool -> W -> outcome (option (list author)) * W.
Variable ScopusSearch :
  string -> bool -> W -> outcome (option (list document)) * W.

Lemma split_class_not_decode_class (e : exn) :
  split_class e = true -> decode_class e = false.
Proof. by destruct e. Qed.

(** X6. An exception of the first try that is not of the decode class
    leaves [query] as it is, with no second try, whatever [first_try]
    says. The three errors that [stacked_query] catches are of this
    kind, so [query] never hides them from it. *)
Theorem query_passes_other_errors q_type q refresh first_try w e w1 :
  query_try AuthorSearch ScopusSearch q_type q refresh w = (Raise e, w1) ->
  split_class e = true \/ decode_class e = false ->
  query AuthorSearch ScopusSearch q_type q refresh first_try w
  = (Raise e, w1).
Proof.
  intros Htry He.
  assert (decode_class e = false) as Hd.
  { destruct He as [He|He]; [by apply split_class_not_decode_class|done]. }
  rewrite query_unfold. unfold query_step. by rewrite Htry, Hd.
Qed.

Lemma check_years_ok (res : list document) :
  check_years res = Ret tt ->
  Forall (fun d => exists y, PyInt.int (Str.take 4 (coverDate d)) = Ret y) res.
Proof.
  induction res as [|d res IH]; intros Hok; [constructor|].
  cbn [check_years] in Hok.
  destruct (PyInt.int (Str.take 4 (coverDate d))) as [y|e] eqn:Hd; [|done].
  constructor; eauto.
Qed.

Lemma query_try_docs_years q refresh w res w' :
  query_try AuthorSearch ScopusSearch "docs" q refresh w
    = (Ret (Some res), w') ->
  Forall (fun pub =>
            exists d y, pub = DocEntry d /\
                        PyInt.int (Str.take 4 (coverDate d)) = Ret y) res.
Proof.
  unfold query_try. simpl.
  destruct (ScopusSearch q refresh w) as [[[docs|]|e] w1]; [|done|done].
  destruct (check_years docs) as [[]|e] eqn:Hyears; [|done].
  intros [= <- <-]. apply check_years_ok in Hyears.
  apply Forall_fmap. eapply Forall_impl; [exact Hyears|].
  intros d [y Hy]. simpl. eauto.
Qed.

(** X7. Every result that [query] returns for ["docs"] is a document
    whose date starts with four characters that [int] accepts: the check
    of the years holds of whatever list comes back, on the first try or
    on the second. *)
Theorem query_docs_years_are_integers q refresh first_try w res w' :
  query AuthorSearch ScopusSearch "docs" q refresh first_try w
    = (Ret (Some res), w') ->
  Forall (fun pub =>
            exists d y, pub = DocEntry d /\
                        PyInt.int (Str.take 4 (coverDate d)) = Ret y) res.
Proof.
  rewrite query_unfold. unfold query_step.
  destruct (query_try _ _ "docs" q refresh w) as [[r|e] w1] eqn:Hfirst.
  - intros [= -> ->]. by eapply query_try_docs_years.
  - destruct (decode_class e); [|done]. destruct first_try; [|done].
    rewrite query_unfold. unfold query_step.
    destruct (query_try _ _ "docs" q true w1) as [[r|e2] w2] eqn:Hsecond.
    + intros [= -> ->]. by eapply query_try_docs_years.
    + by destruct (decode_class e2).
Qed.

(** X8. [query] sends the search at most twice, and at most once when
    [first_try] is false: the world it leaves is the one after the first
    try, or, with [first_try] set, the one after a second try made with
    [refresh=True]. *)
Theorem query_tries_at_most_twice q_type q refresh first_try w :
  let after1 := (query_try AuthorSearch ScopusSearch q_type q refresh w).2 in
  let after2 :=
    (query_try AuthorSearch ScopusSearch q_type q true after1).2 in
  let final :=
    (query AuthorSearch ScopusSearch q_type q refresh first_try w).2 in
  final = after1 \/ (first_try = true /\ final = after2).
Proof.
  intros after1 after2 final. subst after1 after2 final.
  rewrite query_unfold. unfold query_step.
  destruct (query_try _ _ q_type q refresh w) as [[r|e] w1]; [by left|].
  destruct (decode_class e); [|by left].
  destruct first_try; [right|by left]. split; [done|].
  rewrite query_unfold. unfold query_step. simpl.
  destruct (query_try _ _ q_type q true w1) as [[r|e2] w2]; [done|].
  by destruct (decode_class e2).
Qed.

End QueryFurther.

Lemma query_passes_other_errors_witness :
  query (fun _ _ n => (Raise Scopus400Error, S n)) Demo.dated_documents
    "author" "AUTHLAST(x)" false true 0%nat
  = (Raise Scopus400Error, 1%nat).
Proof.
  apply (query_passes_other_errors (fun _ _ n => (Raise Scopus400Error, S n))
           Demo.dated_documents "author" "AUTHLAST(x)" false true 0%nat
           Scopus400Error 1%nat); [reflexivity|by left].
Defined.

Lemma query_docs_years_are_integers_witness :
  Forall (fun pub =>
            exists d y, pub = DocEntry d /\
                        PyInt.int (Str.take 4 (coverDate d)) = Ret y)
    [DocEntry (Document "2-s2.0-1" "2016-03-01" "1;2")].
Proof.
  apply (query_docs_years_are_integers Demo.undecodable_authors
           Demo.dated_documents "2016-03-01" false true 0%nat
           [DocEntry (Document "2-s2.0-1" "2016-03-01" "1;2")] 1%nat).
  reflexivity.
Defined.

(** ** More on [create_cache] *)

Section CreateCacheFurther.

Variable CACHE_TABLES : list (string * variables).
Variable config_file_path : string.

Lemma create_table_dom drop (db : gmap string Sql.table) table vars :
  dom (create_table drop db (table, vars)) = {[ table ]} ∪ dom db.
Proof.
  apply set_eq. intros name.
  rewrite elem_of_union, elem_of_singleton, !elem_of_dom.
  destruct (decide (name = table)) as [->|Hne].
  - rewrite create_table_lookup_eq. split; [by left|by eexists].
  - rewrite create_table_lookup_ne by done. tauto.
Qed.

Lemma create_tables_dom drop (items : list (string * variables))
    (db : gmap string Sql.table) :
  dom (foldl (create_table drop) db items)
  = dom db ∪ list_to_set items.*1.
Proof.
  revert db. induction items as [|[table vars] items IH]; intros db.
  - simpl. by rewrite union_empty_r_L.
  - cbn [foldl]. rewrite IH, create_table_dom, fmap_cons. cbn [fst].
    rewrite list_to_set_cons.
    apply set_eq. intros x. rewrite !elem_of_union. tauto.
Qed.

(** X9. [create_cache] never removes a table, in either mode: the
    tables of the file after the call are those it had and those that
    [CACHE_TABLES] names. It writes to the chosen file only; any other
    file is as it was. *)
Theorem create_cache_tables_after drop file
    (fs : gmap string (gmap string Sql.table)) :
  let path := cache_file config_file_path file in
  (exists db',
     create_cache CACHE_TABLES config_file_path drop file fs !! path
       = Some db' /\
     dom db' = dom (default ∅ (fs !! path)) ∪ list_to_set CACHE_TABLES.*1) /\
  (forall other,
     other <> path ->
     create_cache CACHE_TABLES config_file_path drop file fs !! other
     = fs !! other).
Proof.
  intros path. split.
  - eexists. split; [apply lookup_insert_eq|]. apply create_tables_dom.
  - intros other Hne. unfold create_cache. by apply lookup_insert_ne.
Qed.

Lemma create_tables_after_other drop (db : gmap string Sql.table) :
  NoDup CACHE_TABLES.*1 ->
  create_tables CACHE_TABLES true (create_tables CACHE_TABLES drop db)
  = create_tables CACHE_TABLES true db /\
  create_tables CACHE_TABLES false (create_tables CACHE_TABLES true db)
  = create_tables CACHE_TABLES true db.
Proof.
  intros Hnd. split; apply map_eq; intros name; unfold create_tables;
    destruct (named_or_other CACHE_TABLES name) as [[vars Hin]|Hout].
  - by rewrite !(create_tables_named true _ _ name vars).
  - by rewrite !create_tables_other.
  - rewrite (create_tables_named false _ _ name vars) by done.
    by rewrite !(create_tables_named true _ _ name vars).
  - by rewrite !create_tables_other.
Qed.

(** X10. The destructive mode wins over the other one in either order:
    a call with [drop=True] after any call, and a call with [drop=False]
    after a call with [drop=True], both leave the file as a single call
    with [drop=True] would. *)
Theorem create_cache_drop_absorbs drop file
    (fs : gmap string (gmap string Sql.table)) :
  NoDup CACHE_TABLES.*1 ->
  create_cache CACHE_TABLES config_file_path true file
    (create_cache CACHE_TABLES config_file_path drop file fs)
  = create_cache CACHE_TABLES config_file_path true file fs /\
  create_cache CACHE_TABLES config_file_path false file
    (create_cache CACHE_TABLES config_file_path true file fs)
  = create_cache CACHE_TABLES config_file_path true file fs.
Proof.
  intros Hnd. unfold create_cache.
  rewrite !lookup_insert_eq, !insert_insert_eq. simpl.
  destruct (create_tables_after_other drop
              (default ∅ (fs !! cache_file config_file_path file)) Hnd)
    as [-> ->].
  done.
Qed.

End CreateCacheFurther.

Lemma create_cache_tables_after_witness :
  (exists db',
     create_cache Demo.cache_tables "default.sqlite" true None
       Demo.used_cache !! "default.sqlite" = Some db' /\
     dom db' = dom (default ∅ (Demo.used_cache !! "default.sqlite"))
               ∪ list_to_set Demo.cache_tables.*1) /\
  (forall other,
     other <> "default.sqlite" ->
     create_cache Demo.cache_tables "default.sqlite" true None
       Demo.used_cache !! other
     = Demo.used_cache !! other).
Proof.
  exact (create_cache_tables_after Demo.cache_tables "default.sqlite" true
           None Demo.used_cache).
Defined.

Lemma create_cache_drop_absorbs_witness :
  create_cache Demo.cache_tables "default.sqlite" true (Some "cache.sqlite")
    (create_cache Demo.cache_tables "default.sqlite" false
       (Some "cache.sqlite") Demo.used_cache)
  = create_cache Demo.cache_tables "default.sqlite" true
      (Some "cache.sqlite") Demo.used_cache /\
  create_cache Demo.cache_tables "default.sqlite" false (Some "cache.sqlite")
    (create_cache Demo.cache_tables "default.sqlite" true
       (Some "cache.sqlite") Demo.used_cache)
  = create_cache Demo.cache_tables "default.sqlite" true
      (Some "cache.sqlite") Demo.used_cache.
Proof.
  apply (create_cache_drop_absorbs Demo.cache_tables "default.sqlite" false
           (Some "cache.sqlite") Demo.used_cache).
  apply (bool_decide_unpack _). vm_compute. exact I.
Defined.

(** ** [get_authors] *)

Lemma split_nonempty (sep : ascii) (s : string) : PyStr.split sep s <> [].
Proof.
  destruct s as [|c s]; [done|]. simpl.
  destruct (Ascii.eqb c sep); [done|]. by destruct (PyStr.split sep s).
Qed.

(** Joining the pieces with the separator gives the string back. *)
Lemma join_split (sep : ascii) (s : string) :
  Str.join (String sep "") (PyStr.split sep s) = s.
Proof.
  unfold Str.join. induction s as [|c s IH]; [done|].
  cbn [PyStr.split]. destruct (Ascii.eqb_spec c sep) as [->|Hne].
  - pose proof (split_nonempty sep s) as Hs.
    destruct (PyStr.split sep s) as [|piece pieces]; [done|].
    cbn [String.concat]. cbn [String.concat] in IH. by rewrite IH.
  - destruct (PyStr.split sep s) as [|piece pieces] eqn:Hs;
      [by apply split_nonempty in Hs|].
    cbn [String.concat] in *. destruct pieces as [|piece' pieces].
    + by rewrite IH.
    + by rewrite <- IH.
Qed.

Lemma contains_char_cons (sep c : ascii) (s : string) :
  Str.contains (String sep "") (String c s)
  = Ascii.eqb sep c || Str.contains (String sep "") s.
Proof.
  cbn [Str.contains String.prefix].
  destruct (ascii_dec sep c) as [->|Hne].
  - rewrite Ascii.eqb_refl. by destruct s.
  - apply Ascii.eqb_neq in Hne. rewrite Hne. done.
Qed.

(** No piece holds the separator. *)
Lemma split_pieces (sep : ascii) (s : string) :
  Forall (fun piece => Str.contains (String sep "") piece = false)
    (PyStr.split sep s).
Proof.
  induction s as [|c s IH]; [by repeat constructor|].
  cbn [PyStr.split]. destruct (Ascii.eqb_spec c sep) as [->|Hne].
  - by constructor.
  - destruct (PyStr.split sep s) as [|piece pieces].
    + repeat constructor. rewrite contains_char_cons.
      apply not_eq_sym, Ascii.eqb_neq in Hne. by rewrite Hne.
    + apply Forall_cons in IH as [Hpiece Hpieces]. constructor; [|done].
      rewrite contains_char_cons, Hpiece.
      apply not_eq_sym, Ascii.eqb_neq in Hne. by rewrite Hne.
Qed.

(** X11. For a publication whose [author_ids] is a string,
    [get_authors] loses nothing: joining the ids it returns with [";"]
    gives [author_ids] back, and none of the ids holds a [";"]. *)
Theorem get_authors_round_trip (pub : Pub.t) (ids : string) :
  Pub.author_ids pub = Some ids ->
  Str.join ";" (get_authors [pub]) = ids /\
  Forall (fun au => Str.contains ";" au = false) (get_authors [pub]).
Proof.
  intros Hids. unfold get_authors. cbn [omap list_omap]. rewrite Hids.
  cbn [fmap option_fmap option_map concat]. rewrite app_nil_r.
  split; [apply join_split|apply split_pieces].
Qed.

Lemma get_authors_cons (pub : Pub.t) (pubs : list Pub.t) :
  get_authors (pub :: pubs) = (get_authors [pub] ++ get_authors pubs)%list.
Proof.
  unfold get_authors. cbn [omap list_omap].
  destruct (Pub.author_ids pub) as [ids|];
    cbn [fmap option_fmap option_map concat]; [|done].
  by rewrite app_nil_r.
Qed.

(** X12. [get_authors] works publication by publication: its result on
    a list is the concatenation of its results on each publication
    alone, a publication whose [author_ids] is not a string adds nothing,
    and one whose [author_ids] is a string, even an empty one, adds at
    least one id. *)
Theorem get_authors_by_publication (pubs : list Pub.t) :
  get_authors pubs = concat ((fun pub => get_authors [pub]) <$> pubs) /\
  Forall (fun pub =>
            match Pub.author_ids pub with
            | Some _ => get_authors [pub] <> []
            | None => get_authors [pub] = []
            end) pubs.
Proof.
  split.
  - induction pubs as [|pub pubs IH]; [done|].
    rewrite fmap_cons, get_authors_cons. cbn [concat]. by rewrite <- IH.
  - apply Forall_forall. intros pub _. unfold get_authors.
    cbn [omap list_omap].
    destruct (Pub.author_ids pub) as [ids|];
      cbn [fmap option_fmap option_map concat]; [|done].
    rewrite app_nil_r. apply split_nonempty.
Qed.

Lemma get_authors_round_trip_witness :
  Str.join ";" (get_authors [Pub.Make "e1" "2009-05-01" (Some "1;2")])
  = "1;2" /\
  Forall (fun au => Str.contains ";" au = false)
    (get_authors [Pub.Make "e1" "2009-05-01" (Some "1;2")]).
Proof.
  apply (get_authors_round_trip (Pub.Make "e1" "2009-05-01" (Some "1;2"))).
  reflexivity.
Defined.

Example get_authors_cases :
  get_authors Cases.papers = ["1"; "2"; "1"] /\
  get_authors [Pub.Make "e" "2000" (Some "")] = [""] /\
  get_authors [Pub.Make "e" "2000" (Some "7;")] = ["7"; ""].
Proof. repeat split. Qed.

(** ** [find_country] *)

Lemma papers_until_bad (year : Z) (pubs : list Pub.t) (p : Pub.t) :
  p ∈ pubs ->
  PyInt.int (Str.take 4 (Pub.coverDate p)) = Raise ValueError ->
  papers_until year pubs = Raise ValueError.
Proof.
  intros Hin Hbad.
  induction pubs as [|p' pubs IH]; [by apply elem_of_nil in Hin|].
  cbn [papers_until]. apply elem_of_cons in Hin as [<-|Hin].
  - by rewrite Hbad.
  - destruct (PyInt.int (Str.take 4 (Pub.coverDate p'))) as [y|e] eqn:Hd.
    + by rewrite IH.
    + unfold PyInt.int in Hd. destruct (PyInt.signed _); by simplify_eq.
Qed.

(** The papers kept by the comprehension, when every date is read. *)
Lemma papers_until_ok (year : Z) (pubs : list Pub.t) :
  Forall (fun p => exists y,
            PyInt.int (Str.take 4 (Pub.coverDate p)) = Ret y) pubs ->
  exists papers,
    papers_until year pubs = Ret papers /\
    forall p,
      p ∈ papers <->
      p ∈ pubs /\
      exists y, PyInt.int (Str.take 4 (Pub.coverDate p)) = Ret y /\ y <= year.
Proof.
  induction pubs as [|p' pubs IH]; intros Hall.
  - exists []. split; [done|]. intros p. split.
    + by intros ?%elem_of_nil.
    + by intros [?%elem_of_nil _].
  - apply Forall_cons in Hall as [[y Hy] Hall].
    destruct (IH Hall) as (papers & Hpapers & Hmem).
    cbn [papers_until]. rewrite Hy, Hpapers. eexists. split; [done|].
    intros p. destruct (Z.leb_spec y year) as [Hle|Hgt].
    + rewrite !elem_of_cons, Hmem. split.
      * intros [->|[Hin Hp]]; [|tauto]. split; [by left|eauto].
      * intros [[->|Hin] Hp]; [by left|right; tauto].
    + rewrite Hmem, elem_of_cons. split; [tauto|].
      intros [[->|Hin] (y' & Hy' & Hle)]; [|eauto].
      rewrite Hy in Hy'. injection Hy' as <-. lia.
Qed.

Section SortedReverse.

Context {A : Type} (key : A -> string).

Lemma insert_reverse_perm (x : A) (l : list A) :
  PyStr.insert_reverse key x l ≡ₚ x :: l.
Proof.
  induction l as [|y l IH]; [done|]. cbn [PyStr.insert_reverse].
  destruct (String.leb (key y) (key x)); [done|].
  rewrite IH. apply Permutation_swap.
Qed.

Lemma sorted_reverse_perm (l : list A) : PyStr.sorted_reverse key l ≡ₚ l.
Proof.
  unfold PyStr.sorted_reverse. induction l as [|x l IH]; [done|].
  cbn [foldr]. by rewrite insert_reverse_perm, IH.
Qed.

Lemma insert_reverse_sorted (x : A) (l : list A) :
  StronglySorted (fun a b => String.le (key b) (key a)) l ->
  StronglySorted (fun a b => String.le (key b) (key a))
    (PyStr.insert_reverse key x l).
Proof.
  induction l as [|y l IH]; intros Hsorted.
  - repeat constructor.
  - cbn [PyStr.insert_reverse].
    apply StronglySorted_cons in Hsorted as [Hy Hl].
    destruct (String.leb (key y) (key x)) eqn:Hyx.
    + apply Is_true_true in Hyx.
      apply StronglySorted_cons. split.
      * constructor; [exact Hyx|].
        eapply Forall_impl; [exact Hy|]. simpl. intros z Hz.
        by transitivity (key y).
      * apply StronglySorted_cons. by split.
    + assert (String.le (key x) (key y)) as Hxy.
      { destruct (String.le_total (key x) (key y)) as [?|Hle]; [done|].
        apply Is_true_true in Hle. unfold String.le in Hle.
        congruence. }
      apply StronglySorted_cons. split; [|by apply IH].
      rewrite insert_reverse_perm. by constructor.
Qed.

(** The sorted list runs from the greatest key to the least. *)
Lemma sorted_reverse_sorted (l : list A) :
  StronglySorted (fun a b => String.le (key b) (key a))
    (PyStr.sorted_reverse key l).
Proof.
  unfold PyStr.sorted_reverse. induction l as [|x l IH]; [constructor|].
  cbn [foldr]. by apply insert_reverse_sorted.
Qed.

End SortedReverse.

Section FindCountryProperties.

Context {W : Type}.
Variable AbstractRetrieval :
  string -> W -> outcome (option (list affiliation)) * W.

(** X13. A publication whose [coverDate] does not start with an
    integer, be it anywhere in [pubs] and of any year, makes
    [find_country] raise [ValueError] before any abstract is
    retrieved. *)
Theorem find_country_bad_date auth_ids pubs year w (p : Pub.t) :
  p ∈ pubs ->
  PyInt.int (Str.take 4 (Pub.coverDate p)) = Raise ValueError ->
  find_country AbstractRetrieval auth_ids pubs year w
  = (Raise ValueError, w).
Proof.
  intros Hin Hbad. unfold find_country.
  by rewrite (papers_until_bad year pubs p).
Qed.

(** X14. When every publication is dated after [year], [find_country]
    returns [None] and retrieves no abstract. *)
Theorem find_country_nothing_before auth_ids pubs year w :
  Forall (fun p => exists y,
            PyInt.int (Str.take 4 (Pub.coverDate p)) = Ret y /\ year < y)
    pubs ->
  find_country AbstractRetrieval auth_ids pubs year w = (Ret None, w).
Proof.
  intros Hall. unfold find_country.
  destruct (papers_until_ok year pubs) as (papers & -> & Hmem).
  { eapply Forall_impl; [exact Hall|]. simpl. intros p (y & Hy & _). eauto. }
  destruct papers as [|p papers]; [done|]. exfalso.
  destruct (proj1 (Hmem p)) as (Hin & y & Hy & Hle);
    [apply elem_of_cons; by left|].
  apply (proj1 (Forall_forall _ _) Hall) in Hin as (y' & Hy' & Hlt).
  rewrite Hy in Hy'. injection Hy' as <-. lia.
Qed.

(** From here on the retrieval of an abstract always answers, and with
    an author group that depends on the [eid] only. *)
Variable answer : string -> option (list affiliation).
Hypothesis retrieval_answers :
  forall eid w, (AbstractRetrieval eid w).1 = Ret (answer eid).

(** The loop returns the countries of the first paper that has some. *)
Lemma find_country_loop_first auth_ids (papers : list Pub.t) w :
  ((find_country_loop AbstractRetrieval auth_ids papers w).1 = Ret None /\
   Forall (fun p =>
             countries_of auth_ids (default [] (answer (Pub.eid p))) = [])
     papers) \/
  (exists before p after,
     papers = (before ++ p :: after)%list /\
     Forall (fun p =>
               countries_of auth_ids (default [] (answer (Pub.eid p))) = [])
       before /\
     countries_of auth_ids (default [] (answer (Pub.eid p))) <> [] /\
     (find_country_loop AbstractRetrieval auth_ids papers w).1
     = Ret (Some (Str.join ";"
                    (countries_of auth_ids
                       (default [] (answer (Pub.eid p))))))).
Proof.
  revert w. induction papers as [|p papers IH]; intros w.
  - left. by split.
  - cbn [find_country_loop].
    pose proof (retrieval_answers (Pub.eid p) w) as Hans.
    destruct (AbstractRetrieval (Pub.eid p) w) as [r w1]. simpl in Hans.
    subst r.
    assert (countries_of auth_ids (default [] (answer (Pub.eid p))) = [] ->
            ((find_country_loop AbstractRetrieval auth_ids papers w1).1
               = Ret None /\
             Forall (fun p =>
                       countries_of auth_ids
                         (default [] (answer (Pub.eid p))) = [])
               (p :: papers)) \/
            (exists before p0 after,
               p :: papers = (before ++ p0 :: after)%list /\
               Forall (fun p =>
                         countries_of auth_ids
                           (default [] (answer (Pub.eid p))) = [])
                 before /\
               countries_of auth_ids (default [] (answer (Pub.eid p0)))
                 <> [] /\
               (find_country_loop AbstractRetrieval auth_ids papers w1).1
               = Ret (Some (Str.join ";"
                              (countries_of auth_ids
                                 (default [] (answer (Pub.eid p0)))))))) as Hskip.
    { intros Hnone.
      destruct (IH w1) as [[Hr Hall]|(before & p0 & after & -> & Hb & Hp0 & Hr)].
      - left. split; [done|]. by constructor.
      - right. exists (p :: before), p0, after.
        split; [done|]. split; [by constructor|]. by split. }
    destruct (answer (Pub.eid p)) as [[|a authorgroup]|] eqn:Hanswer;
      [by apply Hskip|..|by apply Hskip].
    destruct (countries_of auth_ids (a :: authorgroup))
      as [|country countries] eqn:Hcountries.
    + apply Hskip. simpl. exact Hcountries.
    + right. exists [], p, papers. split; [done|]. split; [constructor|].
      rewrite Hanswer. simpl default. rewrite Hcountries. by split.
Qed.

(** X15. With such a retrieval and dates that all start with an
    integer, [find_country] answers for the most recent paper that
    helps: either no paper dated up to [year] lists a country for one of
    the authors, and the result is [None]; or the result is the
    countries, joined by [";"], that one such paper lists, and no other
    such paper has a later [coverDate]. *)
Theorem find_country_most_recent auth_ids pubs year w :
  Forall (fun p => exists y,
            PyInt.int (Str.take 4 (Pub.coverDate p)) = Ret y) pubs ->
  ((find_country AbstractRetrieval auth_ids pubs year w).1 = Ret None /\
   forall p y,
     p ∈ pubs ->
     PyInt.int (Str.take 4 (Pub.coverDate p)) = Ret y -> y <= year ->
     countries_of auth_ids (default [] (answer (Pub.eid p))) = []) \/
  (exists p y,
     p ∈ pubs /\
     PyInt.int (Str.take 4 (Pub.coverDate p)) = Ret y /\ y <= year /\
     countries_of auth_ids (default [] (answer (Pub.eid p))) <> [] /\
     (find_country AbstractRetrieval auth_ids pubs year w).1
     = Ret (Some (Str.join ";"
                    (countries_of auth_ids
                       (default [] (answer (Pub.eid p)))))) /\
     forall p' y',
       p' ∈ pubs ->
       PyInt.int (Str.take 4 (Pub.coverDate p')) = Ret y' -> y' <= year ->
       countries_of auth_ids (default [] (answer (Pub.eid p'))) <> [] ->
       String.le (Pub.coverDate p') (Pub.coverDate p)).
Proof.
  intros Hdates. unfold find_country.
  destruct (papers_until_ok year pubs Hdates) as (papers & -> & Hmem).
  pose proof (sorted_reverse_perm Pub.coverDate papers) as Hperm.
  pose proof (sorted_reverse_sorted Pub.coverDate papers) as Hsorted.
  destruct (find_country_loop_first auth_ids
              (PyStr.sorted_reverse Pub.coverDate papers) w)
    as [[Hr Hall]|(before & p & after & Hsplit & Hbefore & Hp & Hr)].
  - left. split; [exact Hr|]. intros p y Hin Hy Hle.
    apply (proj1 (Forall_forall _ _) Hall).
    rewrite Hperm. apply Hmem. eauto.
  - right.
    assert (p ∈ papers) as Hin.
    { rewrite <- Hperm, Hsplit. apply elem_of_app. right.
      apply elem_of_cons. by left. }
    apply Hmem in Hin as (Hin & y & Hy & Hle).
    exists p, y. repeat split; try done.
    intros p' y' Hin' Hy' Hle' Hp'.
    assert (p' ∈ (before ++ p :: after)%list) as Hin''.
    { rewrite <- Hsplit, Hperm. apply Hmem. eauto. }
    apply elem_of_app in Hin'' as [Hb|Ha].
    + exfalso. apply Hp'. by apply (proj1 (Forall_forall _ _) Hbefore).
    + apply elem_of_cons in Ha as [->|Ha]; [done|].
      rewrite Hsplit in Hsorted.
      apply StronglySorted_app in Hsorted as (_ & _ & Htail).
      apply StronglySorted_cons in Htail as [Htail _].
      by apply (proj1 (Forall_forall _ _) Htail).
Qed.

End FindCountryProperties.

Lemma find_country_bad_date_witness :
  find_country Cases.authorgroups ["1"]
    (Cases.papers ++ [Pub.Make "e9" "n.d." None])%list 2016 0%nat
  = (Raise ValueError, 0%nat).
Proof.
  apply (find_country_bad_date Cases.authorgroups ["1"]
           (Cases.papers ++ [Pub.Make "e9" "n.d." None])%list 2016 0%nat
           (Pub.Make "e9" "n.d." None)); [|reflexivity].
  apply elem_of_app. right. apply elem_of_cons. by left.
Defined.

Lemma find_country_nothing_before_witness :
  find_country Cases.authorgroups ["1"] Cases.papers 2000 0%nat
  = (Ret None, 0%nat).
Proof.
  apply (find_country_nothing_before Cases.authorgroups ["1"] Cases.papers
           2000 0%nat).
  unfold Cases.papers.
  repeat (apply List.Forall_cons;
          [eexists; split; [vm_compute; reflexivity|lia]|]).
  apply List.Forall_nil.
Defined.

Example find_country_cases :
  find_country Cases.authorgroups ["1"; "2"] Cases.papers 2016 0%nat
    = (Ret (Some "Italy"), 1%nat) /\
  find_country Cases.authorgroups ["1"; "2"] Cases.papers 2013 0%nat
    = (Ret (Some "France;Germany"), 1%nat) /\
  find_country Cases.authorgroups ["1"; "2"] Cases.papers 2010 0%nat
    = (Ret None, 1%nat).
Proof. repeat split. Qed.

Lemma find_country_most_recent_witness :
  let found :=
    (find_country Cases.cached_authorgroups ["1"; "2"] Cases.papers 2016
       0%nat).1 in
  let countries (p : Pub.t) :=
    countries_of ["1"; "2"]
      (default [] (Cases.known_authorgroups (Pub.eid p))) in
  (found = Ret None /\
   forall p y,
     p ∈ Cases.papers ->
     PyInt.int (Str.take 4 (Pub.coverDate p)) = Ret y -> y <= 2016 ->
     countries p = []) \/
  (exists p y,
     p ∈ Cases.papers /\
     PyInt.int (Str.take 4 (Pub.coverDate p)) = Ret y /\ y <= 2016 /\
     countries p <> [] /\
     found = Ret (Some (Str.join ";" (countries p))) /\
     forall p' y',
       p' ∈ Cases.papers ->
       PyInt.int (Str.take 4 (Pub.coverDate p')) = Ret y' -> y' <= 2016 ->
       countries p' <> [] ->
       String.le (Pub.coverDate p') (Pub.coverDate p)).
Proof.
  apply (find_country_most_recent Cases.cached_authorgroups
           Cases.known_authorgroups (fun _ _ => eq_refl) ["1"; "2"]
           Cases.papers 2016 0%nat).
  unfold Cases.papers.
  repeat (apply List.Forall_cons; [eexists; vm_compute; reflexivity|]).
  apply List.Forall_nil.
Defined.

(** ** [parse_doc] *)

Section ParseDocProperties.

Context {W : Type}.
Variable AbstractRetrievalFull :
  string -> bool -> W -> outcome abstract_doc * W.
Variable clean_abstract : string -> string.

Lemma clean_abstracts_None (docs : list (option abstract_doc)) :
  None ∈ docs -> clean_abstracts clean_abstract docs = Raise AttributeError.
Proof.
  induction docs as [|[ab|] docs IH]; intros Hin.
  - by apply elem_of_nil in Hin.
  - apply elem_of_cons in Hin as [?|Hin]; [done|].
    cbn [clean_abstracts]. by rewrite IH.
  - done.
Qed.

(** What the two comprehensions give on documents that were all found. *)
Lemma clean_abstracts_found (docs : list abstract_doc) :
  clean_abstracts clean_abstract (Some <$> docs)
  = Ret (clean_abstract <$>
           omap (fun ab => if PyStr.truthy (abstract ab)
                           then abstract ab else None) docs).
Proof.
  induction docs as [|ab docs IH]; [done|].
  rewrite fmap_cons. cbn [clean_abstracts omap list_omap]. rewrite IH.
  destruct (abstract ab) as [text|]; [|done].
  by destruct (PyStr.truthy (Some text)).
Qed.

Lemma reference_lists_found (docs : list abstract_doc) :
  reference_lists (Some <$> docs)
  = Ret (omap (fun ab => match references ab with
                         | Some (r :: rs) => Some (r :: rs)
                         | _ => None
                         end) docs).
Proof.
  induction docs as [|ab docs IH]; [done|].
  rewrite fmap_cons. cbn [reference_lists omap list_omap]. rewrite IH.
  by destruct (references ab) as [[|r rs]|].
Qed.

Lemma found_or_None {A : Type} (docs : list (option A)) :
  None ∈ docs \/ exists found, docs = Some <$> found.
Proof.
  induction docs as [|[ab|] docs IH].
  - right. by exists [].
  - destruct IH as [Hin|[found ->]].
    + left. apply elem_of_cons. by right.
    + right. by exists (ab :: found).
  - left. apply elem_of_cons. by left.
Qed.

Lemma length_omap_filter {A B : Type} (f : A -> option B) (P : A -> Prop)
    `{!forall x, Decision (P x)} (l : list A) :
  (forall x, f x = None <-> P x) ->
  (length (omap f l) + length (filter P l))%nat = length l.
Proof.
  intros HP. induction l as [|x l IH]; [done|].
  cbn [omap list_omap]. rewrite filter_cons.
  destruct (f x) as [y|] eqn:Hx.
  - rewrite decide_False; [simpl; lia|]. rewrite <- HP. congruence.
  - rewrite decide_True by by apply HP. simpl. lia.
Qed.

Lemma retrieve_docs_length eids refresh w docs w' :
  retrieve_docs AbstractRetrievalFull eids refresh w = (Ret docs, w') ->
  length docs = length eids.
Proof.
  revert w docs. induction eids as [|eid eids IH]; intros w docs.
  - by intros [= <- <-].
  - cbn [retrieve_docs].
    destruct (AbstractRetrievalFull eid refresh w) as [r w1].
    destruct (match r with
              | Ret ab => Ret (Some ab)
              | Raise Scopus404Error => Ret None
              | Raise e => Raise e
              end) as [doc|e]; [|done].
    destruct (retrieve_docs _ eids refresh w1) as [[docs'|e] w2] eqn:Hrest;
      [|done].
    intros [= <- <-]. simpl. f_equal. by eapply IH.
Qed.

(** X16. When [parse_doc] returns, every document was found, and the
    two counts are exact: [miss_abs] is the number of documents without
    an abstract (missing or empty), [miss_refs] the number without
    references; both lie between [0] and the number of [eids]. *)
Theorem parse_doc_counts eids refresh w p w' :
  parse_doc AbstractRetrievalFull clean_abstract eids refresh w
    = (Ret p, w') ->
  exists docs : list abstract_doc,
    retrieve_docs AbstractRetrievalFull eids refresh w
      = (Ret (Some <$> docs), w') /\
    length docs = length eids /\
    miss_abs p
    = Z.of_nat (length (filter (fun ab => PyStr.truthy (abstract ab) = false)
                          docs)) /\
    miss_refs p
    = Z.of_nat (length (filter (fun ab => references ab = None \/
                                          references ab = Some []) docs)) /\
    0 <= miss_abs p <= Z.of_nat (length eids) /\
    0 <= miss_refs p <= Z.of_nat (length eids).
Proof.
  unfold parse_doc.
  destruct (retrieve_docs _ eids refresh w) as [[docs0|e] w1] eqn:Hdocs;
    [|done].
  destruct (found_or_None docs0) as [Hnone|[docs ->]].
  { by rewrite clean_abstracts_None. }
  apply retrieve_docs_length in Hdocs as Hlen. rewrite length_fmap in Hlen.
  rewrite clean_abstracts_found, reference_lists_found.
  intros [= <- <-]. exists docs. cbn [miss_abs miss_refs].
  rewrite length_fmap, <- Hlen.
  pose proof (length_omap_filter
                (fun ab => if PyStr.truthy (abstract ab)
                           then abstract ab else None)
                (fun ab => PyStr.truthy (abstract ab) = false) docs) as Habs.
  pose proof (length_omap_filter
                (fun ab => match references ab with
                           | Some (r :: rs) => Some (r :: rs)
                           | _ => None
                           end)
                (fun ab => references ab = None \/ references ab = Some [])
                docs) as Hrefs.
  assert (forall ab : abstract_doc,
            match references ab with
            | Some (r :: rs) => Some (r :: rs)
            | _ => None
            end = None <->
            references ab = None \/ references ab = Some []) as Hr.
  { intros ab. destruct (references ab) as [[|r rs]|]; split; try done;
      auto. by intros [?|?]. }
  assert (forall ab : abstract_doc,
            (if PyStr.truthy (abstract ab) then abstract ab else None) = None
            <-> PyStr.truthy (abstract ab) = false) as Ha.
  { intros ab. destruct (abstract ab) as [text|]; [|done].
    by destruct (PyStr.truthy (Some text)). }
  specialize (Habs Ha). specialize (Hrefs Hr).
  repeat split; try done; lia.
Qed.

End ParseDocProperties.

Section ParseDocErrors.

Context {W : Type}.
Variable AbstractRetrievalFull :
  string -> bool -> W -> outcome abstract_doc * W.
Variable clean_abstract : string -> string.

Lemma retrieve_docs_app before after refresh w docs w1 :
  retrieve_docs AbstractRetrievalFull before refresh w = (Ret docs, w1) ->
  retrieve_docs AbstractRetrievalFull (before ++ after)%list refresh w
  = match retrieve_docs AbstractRetrievalFull after refresh w1 with
    | (Ret docs', w2) => (Ret (docs ++ docs')%list, w2)
    | (Raise e, w2) => (Raise e, w2)
    end.
Proof.
  revert w docs. induction before as [|eid before IH]; intros w docs.
  - intros [= <- <-]. simpl.
    by destruct (retrieve_docs _ after refresh w) as [[docs'|e] w2].
  - cbn [app retrieve_docs].
    destruct (AbstractRetrievalFull eid refresh w) as [r w0].
    destruct (match r with
              | Ret ab => Ret (Some ab)
              | Raise Scopus404Error => Ret None
              | Raise e => Raise e
              end) as [doc|e]; [|done].
    destruct (retrieve_docs _ before refresh w0) as [[docs0|e] w0'] eqn:Hb;
      [|done].
    intros [= <- ->]. rewrite (IH _ _ Hb).
    by destruct (retrieve_docs _ after refresh w1) as [[docs'|e] w2].
Qed.

(** X17. A document that Scopus does not have makes [parse_doc] fail:
    when the retrieval of one of the [eids] raises [Scopus404Error] and
    the retrievals around it go through, all documents are retrieved and
    then [AttributeError] is raised; the missing document is not
    skipped. *)
Theorem parse_doc_missing_document before eid after refresh w docs w1 w2
    docs' w3 :
  retrieve_docs AbstractRetrievalFull before refresh w = (Ret docs, w1) ->
  AbstractRetrievalFull eid refresh w1 = (Raise Scopus404Error, w2) ->
  retrieve_docs AbstractRetrievalFull after refresh w2 = (Ret docs', w3) ->
  parse_doc AbstractRetrievalFull clean_abstract
    (before ++ eid :: after)%list refresh w
  = (Raise AttributeError, w3).
Proof.
  intros Hbefore Heid Hafter. unfold parse_doc.
  rewrite (retrieve_docs_app _ _ _ _ _ _ Hbefore).
  cbn [retrieve_docs]. rewrite Heid, Hafter.
  rewrite clean_abstracts_None; [done|].
  apply elem_of_app. right. apply elem_of_cons. by left.
Qed.

(** X18. Any other exception of a retrieval ends [parse_doc] at once:
    it is raised to the caller and the [eids] that follow are not
    retrieved. *)
Theorem parse_doc_other_error before eid after refresh w docs w1 e w2 :
  retrieve_docs AbstractRetrievalFull before refresh w = (Ret docs, w1) ->
  AbstractRetrievalFull eid refresh w1 = (Raise e, w2) ->
  e <> Scopus404Error ->
  parse_doc AbstractRetrievalFull clean_abstract
    (before ++ eid :: after)%list refresh w
  = (Raise e, w2).
Proof.
  intros Hbefore Heid He. unfold parse_doc.
  rewrite (retrieve_docs_app _ _ _ _ _ _ Hbefore).
  cbn [retrieve_docs]. rewrite Heid. by destruct e.
Qed.

End ParseDocErrors.

Lemma parse_doc_counts_witness :
  exists docs : list abstract_doc,
    retrieve_docs Cases.full_abstracts ["e1"; "e3"] false 0%nat
      = (Ret (Some <$> docs), 2%nat) /\
    length docs = length ["e1"; "e3"] /\
    0 = Z.of_nat (length (filter (fun ab => PyStr.truthy (abstract ab) = false)
                            docs)) /\
    0 = Z.of_nat (length (filter (fun ab => references ab = None \/
                                            references ab = Some []) docs)) /\
    0 <= 0 <= Z.of_nat (length ["e1"; "e3"]) /\
    0 <= 0 <= Z.of_nat (length ["e1"; "e3"]).
Proof.
  apply (parse_doc_counts Cases.full_abstracts (fun text => text)
           ["e1"; "e3"] false 0%nat
           (Parsed "r-e1 r-e3" "Abstract of e1 Abstract of e3" 0 0) 2%nat).
  reflexivity.
Defined.

Lemma parse_doc_missing_document_witness :
  parse_doc Cases.full_abstracts (fun text => text)
    (["e1"] ++ "e2" :: ["e3"])%list false 0%nat
  = (Raise AttributeError, 3%nat).
Proof.
  apply (parse_doc_missing_document Cases.full_abstracts (fun text => text)
           ["e1"] "e2" ["e3"] false 0%nat
           [Some (AbstractDoc (Some "Abstract of e1")
                    (Some [Reference "r-e1"]))]
           1%nat 2%nat
           [Some (AbstractDoc (Some "Abstract of e3")
                    (Some [Reference "r-e3"]))]
           3%nat); reflexivity.
Defined.

Lemma parse_doc_other_error_witness :
  parse_doc (fun eid refresh n =>
               if String.eqb eid "e2" then (Raise Scopus500Error, S n)
               else Cases.full_abstracts eid refresh n)
    (fun text => text) (["e1"] ++ "e2" :: ["e3"])%list false 0%nat
  = (Raise Scopus500Error, 2%nat).
Proof.
  apply (parse_doc_other_error
           (fun eid refresh n =>
              if String.eqb eid "e2" then (Raise Scopus500Error, S n)
              else Cases.full_abstracts eid refresh n)
           (fun text => text) ["e1"] "e2" ["e3"] false 0%nat
           [Some (AbstractDoc (Some "Abstract of e1")
                    (Some [Reference "r-e1"]))]
           1%nat Scopus500Error 2%nat); [reflexivity|reflexivity|discriminate].
Defined.

(** ** [query_journal] *)

Lemma authors_by_year_snoc (pubs : list Pub.t) (pub : Pub.t) :
  authors_by_year (pubs ++ [pub])
  = <[Str.take 4 (Pub.coverDate pub) :=
        (default [] (authors_by_year pubs
                       !! Str.take 4 (Pub.coverDate pub))
         ++ get_authors [pub])%list]> (authors_by_year pubs).
Proof. unfold authors_by_year. by rewrite foldl_app. Qed.

Lemma get_authors_app (pubs1 pubs2 : list Pub.t) :
  get_authors (pubs1 ++ pubs2) = (get_authors pubs1 ++ get_authors pubs2)%list.
Proof.
  induction pubs1 as [|pub pubs1 IH]; [done|].
  cbn [app].
  rewrite (get_authors_cons pub (pubs1 ++ pubs2)).
  rewrite (get_authors_cons pub pubs1), IH. by rewrite app_assoc.
Qed.

(** X19. The dictionary that the second loop of [query_journal] builds
    has one key for each year that occurs among the publications, also
    when none of them lists an author; under a year it holds the authors
    of the publications of that year, in the order of the
    publications. *)
Theorem authors_by_year_lookup (pubs : list Pub.t) (year : string) :
  authors_by_year pubs !! year
  = if decide (year ∈ (fun pub => Str.take 4 (Pub.coverDate pub)) <$> pubs)
    then Some (get_authors
                 (filter (fun pub => Str.take 4 (Pub.coverDate pub) = year)
                    pubs))
    else None.
Proof.
  induction pubs as [|pub pubs IH] using rev_ind; [done|].
  rewrite authors_by_year_snoc, fmap_app, filter_app, get_authors_app.
  rewrite fmap_cons, fmap_nil, filter_cons, filter_nil.
  assert (year ∉ (fun pub => Str.take 4 (Pub.coverDate pub)) <$> pubs ->
          filter (fun pub => Str.take 4 (Pub.coverDate pub) = year) pubs
          = []) as Hnone.
  { intros Hout.
    destruct (filter _ pubs) as [|pub' pubs'] eqn:Hfilter; [done|].
    exfalso. apply Hout.
    assert (pub' ∈ filter (fun pub => Str.take 4 (Pub.coverDate pub) = year)
                     pubs) as Hin
      by (rewrite Hfilter; apply elem_of_cons; by left).
    apply list_elem_of_filter in Hin as [<- Hin].
    by apply (list_elem_of_fmap_2
                (fun pub => Str.take 4 (Pub.coverDate pub))). }
  destruct (decide (Str.take 4 (Pub.coverDate pub) = year)) as [Heq|Hne].
  - rewrite Heq, lookup_insert_eq, IH.
    destruct (decide (year ∈ (((fun pub => Str.take 4 (Pub.coverDate pub))
                                 <$> pubs) ++ [year])%list)) as [_|Hout].
    + destruct (decide (year ∈ (fun pub => Str.take 4 (Pub.coverDate pub))
                                 <$> pubs)) as [Hin|Hout]; [done|].
      by rewrite Hnone.
    + exfalso. apply Hout, elem_of_app. right. apply elem_of_cons. by left.
  - rewrite lookup_insert_ne by done. rewrite IH, app_nil_r.
    destruct (decide (year ∈ (fun pub => Str.take 4 (Pub.coverDate pub))
                               <$> pubs)) as [Hin|Hout].
    + by rewrite decide_True by (apply elem_of_app; by left).
    + rewrite decide_False; [done|].
      intros [?|Hin]%elem_of_app; [done|].
      apply elem_of_cons in Hin as [?|Hin]; [done|].
      by apply elem_of_nil in Hin.
Qed.

Section QueryJournalProperties.

Context {W : Type}.
Variable AuthorSearch :
  string -> bool -> W -> outcome (option (list author)) * W.
Variable ScopusSearch :
  string -> bool -> W -> outcome (option (list document)) * W.

Lemma query_try_docs_entries q refresh w res w' :
  query_try AuthorSearch ScopusSearch "docs" q refresh w
    = (Ret (Some res), w') ->
  exists docs, res = DocEntry <$> docs.
Proof.
  unfold query_try. simpl.
  destruct (ScopusSearch q refresh w) as [[[docs|]|e] w1]; [|done|done].
  destruct (check_years docs) as [[]|e]; [|done].
  intros [= <- <-]. by exists docs.
Qed.

Lemma query_docs_entries q refresh first_try w res w' :
  query AuthorSearch ScopusSearch "docs" q refresh first_try w
    = (Ret (Some res), w') ->
  exists docs, res = DocEntry <$> docs.
Proof.
  rewrite query_unfold. unfold query_step.
  destruct (query_try _ _ "docs" q refresh w) as [[r|e] w1] eqn:Hfirst.
  - intros [= -> ->]. by eapply query_try_docs_entries.
  - destruct (decode_class e); [|done]. destruct first_try; [|done].
    rewrite query_unfold. unfold query_step.
    destruct (query_try _ _ "docs" q true w1) as [[r|e2] w2] eqn:Hsecond.
    + intros [= -> ->]. by eapply query_try_docs_entries.
    + by destruct (decode_class e2).
Qed.

Lemma publications_documents (docs : list document) :
  publications (DocEntry <$> docs) = Ret (publication <$> docs).
Proof.
  induction docs as [|d docs IH]; [done|].
  rewrite !fmap_cons. cbn [publications]. by rewrite IH.
Qed.

(** X20. When the search for the whole source is answered,
    [query_journal] sends no other search: it returns the authors of the
    documents found, grouped by the first four characters of their
    dates. *)
Theorem query_journal_one_search source_id years refresh w res w' :
  query AuthorSearch ScopusSearch "docs"
    ("SOURCE-ID(" ++ str source_id ++ ")") refresh true w
    = (Ret (Some res), w') ->
  exists docs,
    res = DocEntry <$> docs /\
    query_journal AuthorSearch ScopusSearch source_id years refresh w
    = Some (Ret (authors_by_year (publication <$> docs)), w').
Proof.
  intros Hquery.
  destruct (query_docs_entries _ _ _ _ _ _ Hquery) as [docs ->].
  exists docs. split; [done|].
  unfold query_journal, journal_documents. rewrite Hquery.
  by rewrite publications_documents.
Qed.

(** X21. Of the errors of the first search, [query_journal] takes up
    [ScopusQueryError] and [Scopus500Error] only. Any other exception
    that is not of the decode class, [Scopus400Error] among them, goes
    to the caller, and no search by year is tried. *)
Theorem query_journal_other_error source_id years refresh w e w1 :
  query_try AuthorSearch ScopusSearch "docs"
    ("SOURCE-ID(" ++ str source_id ++ ")") refresh w = (Raise e, w1) ->
  decode_class e = false ->
  e <> ScopusQueryError ->
  e <> Scopus500Error ->
  query_journal AuthorSearch ScopusSearch source_id years refresh w
  = Some (Raise e, w1).
Proof.
  intros Htry Hdecode Hquery H500.
  unfold query_journal, journal_documents.
  rewrite query_unfold. unfold query_step. rewrite Htry, Hdecode.
  by destruct e.
Qed.

(** X22. When both tries of the first search fail in the decode class,
    [query] returns [None] and [query_journal] raises [TypeError] on
    looping over it. *)
Theorem query_journal_undecodable source_id years refresh w e1 w1 e2 w2 :
  query_try AuthorSearch ScopusSearch "docs"
    ("SOURCE-ID(" ++ str source_id ++ ")") refresh w = (Raise e1, w1) ->
  decode_class e1 = true ->
  query_try AuthorSearch ScopusSearch "docs"
    ("SOURCE-ID(" ++ str source_id ++ ")") true w1 = (Raise e2, w2) ->
  decode_class e2 = true ->
  query_journal AuthorSearch ScopusSearch source_id years refresh w
  = Some (Raise TypeError, w2).
Proof.
  intros Hfirst He1 Hsecond He2.
  unfold query_journal, journal_documents.
  rewrite query_unfold. unfold query_step. rewrite Hfirst, He1.
  rewrite query_unfold. unfold query_step. by rewrite Hsecond, He2.
Qed.

(** In the loop over the years the list [res] is appended to itself
    after each year, since the value that [stacked_query] hands back is
    [res]. *)
Lemma year_wise_doubles source_id years refresh (w w' : world W entry) :
  years <> [] ->
  year_wise AuthorSearch ScopusSearch source_id years refresh w
    = Some (Ret tt, w') ->
  exists half,
    default [] (heap w' !! res_loc) = (half ++ half)%list.
Proof.
  revert w. induction years as [|year years IH]; intros w Hne; [done|].
  cbn [year_wise].
  destruct (stacked_query [year] _ _ _ _ _ _ _ w)
    as [[[[[|ext] i]|e] w1]|] eqn:Hrun; [done| |done|done].
  apply stacked_query_rec_value in Hrun as [[= ->]|?]; [|done].
  destruct years as [|year' years].
  - intros [= <-]. exists (default [] (heap w1 !! res_loc)).
    unfold extend. simpl. by rewrite lookup_insert_eq.
  - by apply IH.
Qed.

(** X23. When the first search fails with [ScopusQueryError] or
    [Scopus500Error] and the searches by year go through, the list of
    documents that [query_journal] goes on with is some list followed by
    itself: every document found by year is there at least twice. *)
Theorem query_journal_year_wise_doubles source_id years refresh w e w1 res
    w' :
  query AuthorSearch ScopusSearch "docs"
    ("SOURCE-ID(" ++ str source_id ++ ")") refresh true w = (Raise e, w1) ->
  e = ScopusQueryError \/ e = Scopus500Error ->
  years <> [] ->
  journal_documents AuthorSearch ScopusSearch source_id years refresh w
    = Some (Ret (Some res), w') ->
  exists half, res = (half ++ half)%list.
Proof.
  intros Hquery He Hne. unfold journal_documents. rewrite Hquery.
  assert (match year_wise AuthorSearch ScopusSearch source_id years refresh
                    (World w1 {[ res_loc := [] ]} [] 0) with
            | None => None
            | Some (Raise e', ww) => Some (Raise e', service ww)
            | Some (Ret _, ww) =>
                Some (Ret (Some (default [] (heap ww !! res_loc))),
                      service ww)
            end = Some (Ret (Some res), w') ->
            exists half, res = (half ++ half)%list) as Hloop.
  { destruct (year_wise _ _ source_id years refresh _)
      as [[[[]|e'] ww]|] eqn:Hyears; [|done|done].
    intros [= <- <-]. by eapply year_wise_doubles. }
  destruct He as [-> | ->]; by apply Hloop.
Qed.

End QueryJournalProperties.

Lemma query_journal_one_search_witness :
  exists docs,
    [DocEntry (Document "e10" "2010-02-01" "1;2");
     DocEntry (Document "e11" "2011-07-01" "3");
     DocEntry (Document "e12" "2010-09-09" "4")] = DocEntry <$> docs /\
    query_journal Demo.undecodable_authors Cases.small_journal
      (IdInt 22900) [IdInt 2010; IdInt 2011] false 0%nat
    = Some (Ret (authors_by_year (publication <$> docs)), 1%nat).
Proof.
  apply (query_journal_one_search Demo.undecodable_authors
           Cases.small_journal (IdInt 22900) [IdInt 2010; IdInt 2011] false
           0%nat).
  reflexivity.
Defined.

Lemma query_journal_other_error_witness :
  query_journal Demo.undecodable_authors
    (fun _ _ n => (Raise Scopus400Error, S n))
    (IdInt 22900) [IdInt 2010] false 0%nat
  = Some (Raise Scopus400Error, 1%nat).
Proof.
  apply (query_journal_other_error Demo.undecodable_authors
           (fun _ _ n => (Raise Scopus400Error, S n))
           (IdInt 22900) [IdInt 2010] false 0%nat Scopus400Error 1%nat);
    [reflexivity|reflexivity|discriminate|discriminate].
Defined.

Lemma query_journal_undecodable_witness :
  query_journal Demo.undecodable_authors Demo.dated_documents
    (IdInt 22900) [IdInt 2010] false 0%nat
  = Some (Raise TypeError, 2%nat).
Proof.
  apply (query_journal_undecodable Demo.undecodable_authors
           Demo.dated_documents (IdInt 22900) [IdInt 2010] false 0%nat
           ValueError 1%nat ValueError 2%nat); reflexivity.
Defined.

Lemma query_journal_year_wise_doubles_witness :
  exists half,
    [DocEntry (Document "e10" "2010-02-01" "1;2");
     DocEntry (Document "e10" "2010-02-01" "1;2");
     DocEntry (Document "e11" "2011-07-01" "3");
     DocEntry (Document "e10" "2010-02-01" "1;2");
     DocEntry (Document "e10" "2010-02-01" "1;2");
     DocEntry (Document "e11" "2011-07-01" "3")] = (half ++ half)%list.
Proof.
  apply (query_journal_year_wise_doubles Demo.undecodable_authors
           Cases.large_journal (IdInt 22900) [IdInt 2010; IdInt 2011] false
           0%nat ScopusQueryError 1%nat _ 3%nat);
    [reflexivity|by left|discriminate|vm_compute; reflexivity].
Defined.

(** The run of the large journal in full: each author found by year is
    listed more than once. *)
Example query_journal_cases :
  (map_to_list <$>
     match query_journal Demo.undecodable_authors Cases.small_journal
             (IdInt 22900) [IdInt 2010; IdInt 2011] false 0%nat with
     | Some (Ret d, _) => Some d
     | _ => None
     end)
  = Some [("2011", ["3"]); ("2010", ["1"; "2"; "4"])] /\
  (map_to_list <$>
     match query_journal Demo.undecodable_authors Cases.large_journal
             (IdInt 22900) [IdInt 2010; IdInt 2011] false 0%nat with
     | Some (Ret d, _) => Some d
     | _ => None
     end)
  = Some [("2011", ["3"; "3"]);
          ("2010", ["1"; "2"; "1"; "2"; "1"; "2"; "1"; "2"])] /\
  query_journal Demo.undecodable_authors Cases.large_journal
    (IdInt 22900) [IdInt 2010; IdInt 2012] false 0%nat
  = Some (Raise TypeError, 21%nat).
Proof. repeat split; vm_compute; reflexivity. Qed.

(** ** [stacked_query] when the service is down *)

Section StackedQueryDown.

Context {W R : Type}.
Implicit Types (w : world W R) (func : @adapter W R) (group : list ident).

Lemma stacked_query_rec_refused fuel :
  forall group l query joiner func refresh i total w v i' w',
    (forall q w0, exists e w1,
        call func q refresh w0 = (Raise e, w1) /\ split_class e = true) ->
    stacked_query_rec fuel group (VList l) query joiner func refresh i
      total w = Some (Ret (v, i'), w') ->
    v = VNone /\ i' = i /\ heap w' = heap w /\ progress w' = progress w.
Proof.
  induction fuel as [|fuel IH];
    intros group l query joiner func refresh i total w v i' w' Hdown Hrun;
    [done|].
  rewrite stacked_query_rec_S in Hrun. unfold stacked_query_step in Hrun.
  destruct (Template.substitute _ _) as [q|?]; [|done].
  destruct (Hdown q w) as (e & w1 & Hcall & He).
  rewrite Hcall, He in Hrun.
  apply call_calls in Hcall as (_ & Hheap & Hprogress).
  assert (forall g1 g2 tpl j t,
            bind (stacked_query_rec fuel g1 (VList l) tpl j func refresh i
                    t w1)
              (fun '(_, i1) w2 =>
            bind (stacked_query_rec fuel g2 (VList l) tpl j func refresh i1
                    t w2)
              (fun '(res, i2) w3 => Some (Ret (res, i2), w3)))
            = Some (Ret (v, i'), w') ->
            v = VNone /\ i' = i /\ heap w' = heap w /\
            progress w' = progress w) as Hseq.
  { intros g1 g2 tpl j t Hboth.
    apply bind_returns in Hboth as ([v1 i1] & w2 & Hfirst & Hboth).
    apply bind_returns in Hboth as ([v2 i2] & w3 & Hsecond & Hboth).
    injection Hboth as <- <- <-.
    apply IH in Hfirst as (_ & -> & Hh1 & Hp1); [|done].
    apply IH in Hsecond as (-> & -> & Hh2 & Hp2); [|done].
    repeat split; congruence. }
  destruct (1 <? _)%nat; [by eapply Hseq|].
  destruct (negb _); [by eapply Hseq|].
  injection Hrun as <- <- <-. done.
Qed.

(** X24. When every search fails with one of the three caught errors,
    [stacked_query] never hands the list back: whenever it returns, it
    returns [None] with the counter it was given, and no list and no
    progress line has changed. *)
Theorem stacked_query_service_down group l query joiner func refresh i
    total w v i' w' :
  (forall q w0, exists e w1,
      call func q refresh w0 = (Raise e, w1) /\ split_class e = true) ->
  stacked_query group (VList l) query joiner func refresh i total w
    = Some (Ret (v, i'), w') ->
  v = VNone /\ i' = i /\ heap w' = heap w /\ progress w' = progress w.
Proof. apply stacked_query_rec_refused. Qed.

End StackedQueryDown.

Lemma stacked_query_service_down_witness :
  (VNone : value) = VNone /\ 0 = 0 /\
  heap (World tt {[ 0%nat := [] ]} [] 19 : world unit string)
  = heap Demo.fresh /\
  progress (World tt {[ 0%nat := [] ]} [] 19 : world unit string)
  = progress Demo.fresh.
Proof.
  apply (stacked_query_service_down [IdInt 1] 0%nat
           (Template.Template "AU-ID($fill)") ") OR AU-ID("
           Demo.refuses_all false 0 (Some 1) Demo.fresh VNone 0
           (World tt {[ 0%nat := [] ]} [] 19)).
  - intros q w0. exists Scopus400Error, (World (service w0) (heap w0)
                                           (progress w0) (S (calls w0))).
    by destruct w0 as [[] ? ? ?].
  - vm_compute. reflexivity.
Defined.

(** ** The split outside the give-up branch *)

Section StackedQueryCarrying.

Context {W R : Type}.
Implicit Types (w : world W R) (func : @adapter W R) (group : list ident).

(** X25. Outside the give-up branch the split carries the accumulator
    forward. When the query of a group of more than one identifier fails
    with one of the three caught errors and the call on the first half
    does not hand back [None], the run is the one in which the second
    half is given the list and the counter that the first half
    returned. *)
Theorem stacked_query_bisects_carrying group l query joiner func refresh i
    total w q e w1 :
  Template.substitute query (Str.join joiner (str <$> group)) = Ret q ->
  call func q refresh w = (Raise e, w1) ->
  split_class e = true ->
  (1 < length group)%nat ->
  (forall i1 w2,
     stacked_query (IdStr <$> take (length group / 2) (str <$> group))
       (VList l) query joiner func refresh i total w1
     <> Some (Ret (VNone, i1), w2)) ->
  stacked_query group (VList l) query joiner func refresh i total w
  = bisect_carrying stacked_query
      (IdStr <$> take (length group / 2) (str <$> group))
      (IdStr <$> drop (length group / 2) (str <$> group))
      (VList l) query joiner func refresh i total w1.
Proof.
  intros Hq Hcall He Hlen Hlist.
  rewrite (stacked_query_split group l query joiner func refresh i total w
             q e w1 Hq Hcall He Hlen).
  unfold bisect_carrying.
  destruct (stacked_query (IdStr <$> take _ _) _ _ _ _ _ _ _ w1)
    as [[[[v1 i1]|e1] w2]|] eqn:Hfirst; [|done|done].
  cbn [bind].
  apply stacked_query_rec_value in Hfirst as Hvalue.
  destruct Hvalue as [->| ->]; [done|].
  by specialize (Hlist i1 w2).
Qed.

End StackedQueryCarrying.

Lemma stacked_query_bisects_carrying_witness :
  let group := [IdInt 1; IdInt 2] in
  let query := Template.Template "AU-ID($fill)" in
  let func := Demo.answers_only "AU-ID(1)" in
  let w1 := World tt {[ 0%nat := [] ]} [] 1 in
  stacked_query group (VList 0%nat) query ") OR AU-ID(" func false 0
    (Some 2) Demo.fresh
  = bisect_carrying stacked_query
      (IdStr <$> take (length group / 2) (str <$> group))
      (IdStr <$> drop (length group / 2) (str <$> group))
      (VList 0%nat) query ") OR AU-ID(" func false 0 (Some 2) w1.
Proof.
  intros group query func w1.
  apply (stacked_query_bisects_carrying group 0%nat query ") OR AU-ID(" func
           false 0 (Some 2) Demo.fresh "AU-ID(1) OR AU-ID(2)" Scopus400Error
           w1);
    [reflexivity | reflexivity | reflexivity | simpl; lia |].
  intros i1 w2. vm_compute. discriminate.
Defined.

(** ** The second try of [query] *)

Section QueryRetry.

Context {W : Type}.
Variable AuthorSearch :
  string -> bool -> W -> outcome (option (list author)) * W.
Variable ScopusSearch :
  string -> bool -> W -> outcome (option (list document)) * W.

(** X26. After a failure of the decode class on the first try, the
    second try, made with [refresh=True], decides what [query] does: it
    returns the list of the second try if there is one, and raises the
    exception of the second try if that is not of the decode class. *)
Theorem query_retry_decides q_type q refresh w e1 w1 :
  query_try AuthorSearch ScopusSearch q_type q refresh w = (Raise e1, w1) ->
  decode_class e1 = true ->
  (forall res w2,
     query_try AuthorSearch ScopusSearch q_type q true w1 = (Ret res, w2) ->
     query AuthorSearch ScopusSearch q_type q refresh true w
     = (Ret res, w2)) /\
  (forall e2 w2,
     query_try AuthorSearch ScopusSearch q_type q true w1 = (Raise e2, w2) ->
     decode_class e2 = false ->
     query AuthorSearch ScopusSearch q_type q refresh true w
     = (Raise e2, w2)).
Proof.
  intros Hfirst He1.
  assert (query AuthorSearch ScopusSearch q_type q refresh true w
          = query AuthorSearch ScopusSearch q_type q true false w1) as ->.
  { rewrite query_unfold at 1. unfold query_step. by rewrite Hfirst, He1. }
  split.
  - intros res w2 Hsecond. rewrite query_unfold. unfold query_step.
    by rewrite Hsecond.
  - intros e2 w2 Hsecond He2. rewrite query_unfold. unfold query_step.
    by rewrite Hsecond, He2.
Qed.

End QueryRetry.

Lemma query_retry_decides_witness :
  query Cases.flaky_authors Demo.dated_documents
    "author" "AUTHLAST(rose)" false true 0%nat
  = (Ret (Some [AuthorEntry (Author "9-s2.0-53164702100" "Rose")]), 2%nat).
Proof.
  destruct (query_retry_decides Cases.flaky_authors Demo.dated_documents
              "author" "AUTHLAST(rose)" false 0%nat
              (KeyError "search-results") 1%nat eq_refl eq_refl)
    as [Hanswer _].
  apply Hanswer. reflexivity.
Defined.
